(** * LiveVisionKit: SpatialMap and the video stabilisation filter

    A shallow embedding of [SpatialMap<T>] (Structures/SpatialMap.tpp) and of
    the buffering and crop search of [VSFilter], with the properties stated
    about them.

    Conventions of the embedding.
    - [size_t] values (keys, links, sizes) are [N]; [int] fields of
      [cv::Size] and [cv::Rect] are [Z].  An [int] compared with or passed
      as a [size_t] goes through [to_size_t], the 64-bit conversion.
    - A function guarded by [LVK_ASSERT], or indexing a vector, returns
      [option]: [None] is a failed assertion or an access out of range.
    - [float] arithmetic is an interface ([Float32]); nothing below depends
      on how it rounds.  [double] in [enclose_crop] is the binary64 type of
      the kernel ([PrimFloat]).
    - A returned reference [T&] into [m_Data] is the index of the element. *)

From stdpp Require Import base numbers option list.
From Stdlib Require Import ZArith NArith QArith Qround Floats Lia.

Set Default Proof Using "Type".
Local Open Scope N_scope.

(** ** Numeric conversions *)

(** [static_cast<size_t>] of an [int]: negative values wrap around. *)
Definition to_size_t (z : Z) : N :=
  if (z <? 0)%Z then Z.to_N (z + 2 ^ 64) else Z.to_N z.

(** Modelled from the spec: [index_2d] of Math/Math.hpp, which is not among
    the sources; cells are laid out row by row, a key being (column, row). *)
Definition index_2d (x y row_length : N) : N := y * row_length + x.

(** Modelled from the spec: [between] of Math/Math.hpp, which is not among
    the sources; both ends are included, as [within_bounds] passes
    [br - 1] for the right and bottom ends that are excluded. *)
Definition between (v lo hi : Z) : bool := ((lo <=? v) && (v <=? hi))%Z.

(** ** OpenCV value types *)

Record Point_ (P : Type) := mkPoint { px : P; py : P }.
Arguments mkPoint {P} _ _.
Arguments px {P} _.
Arguments py {P} _.

Record Size_ (A : Type) := mkSize { width : A; height : A }.
Arguments mkSize {A} _ _.
Arguments width {A} _.
Arguments height {A} _.

Record Rect := mkRect { rect_x : Z; rect_y : Z; rect_width : Z; rect_height : Z }.

Definition Size := Size_ Z.
Definition spatial_key := Point_ N.

Definition area (s : Size) : Z := (width s * height s)%Z.
Definition br (r : Rect) : Point_ Z :=
  mkPoint (rect_x r + rect_width r)%Z (rect_y r + rect_height r)%Z.
Definition rect_size (r : Rect) : Size := mkSize (rect_width r) (rect_height r).

#[global] Instance Point_eq_dec {P} `{EqDecision P} : EqDecision (Point_ P).
Proof. solve_decision. Defined.
#[global] Instance Size_eq_dec {A} `{EqDecision A} : EqDecision (Size_ A).
Proof. solve_decision. Defined.
#[global] Instance Rect_eq_dec : EqDecision Rect.
Proof. solve_decision. Defined.

(** ** Single precision arithmetic, as an interface *)

Class Float32 (F : Type) := {
  f32_of_int : Z → F;          (* static_cast<float>(int) *)
  f32_of_size : N → F;         (* static_cast<float>(size_t) *)
  f32_div : F → F → F;
  f32_to_size : F → N          (* static_cast<size_t>(float) *)
}.

(** The coordinate type [P] of a position [cv::Point_<P>]. *)
Class Coord (F P : Type) := {
  coord_of_int : Z → P;
  coord_sub : P → P → P;
  coord_to_int : P → Z;        (* static_cast<int>(P) *)
  coord_to_f32 : P → F         (* static_cast<float>(P) *)
}.

#[global] Instance Coord_size_t {F} `{Float32 F} : Coord F N := {
  coord_of_int := to_size_t;
  coord_sub := λ a b, (a - b) mod 2 ^ 64;
  coord_to_int := Z.of_N;
  coord_to_f32 := f32_of_size
}.

(** Exact rational arithmetic is one instance of the interface; it is used
    to run the definitions on concrete maps. *)
Definition Q_to_size (q : Q) : N := Z.to_N (Qnum q / Zpos (Qden q))%Z.

#[global] Instance ExactFloat : Float32 Q := {|
  f32_of_int := inject_Z;
  f32_of_size := λ n, inject_Z (Z.of_N n);
  f32_div := Qdiv;
  f32_to_size := Q_to_size
|}.

#[global] Instance ExactCoordZ : Coord Q Z := {|
  coord_of_int := id;
  coord_sub := Z.sub;
  coord_to_int := id;
  coord_to_f32 := inject_Z
|}.

(** ** SpatialMap *)

Module SpatialMap.
Section Map.
Context {F : Type} `{Float32 F}.
Context {T : Type}.
(** The sentinel of an empty cell, declared in SpatialMap.hpp. *)
Context (m_EmptySymbol : N).

Record t := mk {
  m_InputRegion : Rect;
  m_MapResolution : Size;
  m_KeySize : Size_ F;
  m_Map : list N;
  m_Data : list (spatial_key * T)
}.

Definition with_store (m : t) (links : list N) (data : list (spatial_key * T)) : t :=
  {| m_InputRegion := m_InputRegion m; m_MapResolution := m_MapResolution m;
     m_KeySize := m_KeySize m; m_Map := links; m_Data := data |}.

(** *** Private helpers *)

Definition simplify_key {P} `{Coord F P} (point : Point_ P) (key_size : Size_ F)
  : spatial_key :=
  mkPoint (f32_to_size (f32_div (coord_to_f32 (px point)) (width key_size)))
          (f32_to_size (f32_div (coord_to_f32 (py point)) (height key_size))).

Definition resolve_spatial_key (key : spatial_key) (resolution : Size) : N :=
  index_2d (px key) (py key) (to_size_t (width resolution)).

Definition is_key_valid (m : t) (key : spatial_key) : bool :=
  (px key <? to_size_t (width (m_MapResolution m)))
  && (py key <? to_size_t (height (m_MapResolution m))).

(** The cell of [key] in [m_Map], as a list position. *)
Definition cell (m : t) (key : spatial_key) : nat :=
  N.to_nat (resolve_spatial_key key (m_MapResolution m)).

Definition fetch_data_link (m : t) (key : spatial_key) : option N :=
  m_Map m !! cell m key.

Definition is_data_link_empty (link : N) : bool := link =? m_EmptySymbol.

(** *** Observers *)

Definition key_size (m : t) : Size_ F := m_KeySize m.
Definition input_region (m : t) : Rect := m_InputRegion m.
Definition resolution (m : t) : Size := m_MapResolution m.
Definition capacity (m : t) : N := N.of_nat (length (m_Map m)).
Definition size (m : t) : N := N.of_nat (length (m_Data m)).
Definition is_empty (m : t) : bool := bool_decide (m_Data m = []).

Definition contains (m : t) (key : spatial_key) : option bool :=
  if is_key_valid m key
  then link ← fetch_data_link m key; Some (negb (is_data_link_empty link))
  else None.

Definition at_ (m : t) (key : spatial_key) : option T :=
  c ← contains m key;
  if c : bool
  then link ← fetch_data_link m key; snd <$> m_Data m !! N.to_nat link
  else None.

(** *** Insertion *)

(** [std::vector::emplace(begin() + i, ...)]: the new element is put
    before position [i] and the elements from [i] on move up by one. *)
Definition vector_emplace {A} (v : list A) (i : nat) (a : A) : option (list A) :=
  if decide (i ≤ length v)%nat then Some (take i v ++ a :: drop i v) else None.

Definition place_at (m : t) (key : spatial_key) (item : T) : option (t * nat) :=
  if is_key_valid m key then
    data_link ← fetch_data_link m key;
    if is_data_link_empty data_link then
      Some (with_store m (<[cell m key := size m]> (m_Map m))
                         (m_Data m ++ [(key, item)]),
            length (m_Data m))
    else
      data ← vector_emplace (m_Data m) (N.to_nat data_link) (key, item);
      Some (with_store m (m_Map m) data, N.to_nat data_link)
  else None.

(** [T{args...}] is [construct args]. *)
Definition emplace_at {Args} (construct : Args → T)
    (m : t) (key : spatial_key) (args : Args) : option (t * nat) :=
  if is_key_valid m key then
    data_link ← fetch_data_link m key;
    if is_data_link_empty data_link then
      Some (with_store m (<[cell m key := size m]> (m_Map m))
                         (m_Data m ++ [(key, construct args)]),
            length (m_Data m))
    else
      data ← vector_emplace (m_Data m) (N.to_nat data_link) (key, construct args);
      Some (with_store m (m_Map m) data, N.to_nat data_link)
  else None.

(** *** Rescaling *)

(** The loop of [rescale] over the old entries. *)
Fixpoint reinsert (old_data : list (spatial_key * T)) (m : t) : option t :=
  match old_data with
  | [] => Some m
  | (key, item) :: rest =>
      if is_key_valid m key
      then r ← place_at m key item; reinsert rest r.1
      else reinsert rest m
  end.

Definition rescale_pre (resolution : Size) (input_region : Rect) : bool :=
  ((1 <=? width resolution) && (1 <=? height resolution)
   && (width resolution <=? rect_width input_region)
   && (height resolution <=? rect_height input_region))%Z.

Definition rescale (m : t) (resolution : Size) (input_region : Rect) : option t :=
  if rescale_pre resolution input_region then
    if bool_decide (resolution ≠ m_MapResolution m ∨ input_region ≠ m_InputRegion m)
    then
      reinsert (m_Data m)
        {| m_InputRegion := input_region;
           m_MapResolution := resolution;
           m_KeySize :=
             mkSize (f32_div (f32_of_int (rect_width input_region))
                             (f32_of_int (width resolution)))
                    (f32_div (f32_of_int (rect_height input_region))
                             (f32_of_int (height resolution)));
           m_Map := replicate (N.to_nat (to_size_t (area resolution))) m_EmptySymbol;
           m_Data := [] |}
    else Some m
  else None.

(** *** Removal *)

(** [std::swap(m_Data[i], replace_item)]: [replace_key] and [replace_item]
    name the two halves of [m_Data.back()], and the swap is taken to
    exchange the entry at [i] with that last entry, as the comment above it
    in the source says ("swap it with the last added item"). *)
Definition swap_with_back {A} (v : list A) (i : nat) : option (list A) :=
  a ← v !! i;
  b ← last v;
  Some (<[pred (length v) := a]> (<[i := b]> v)).

Definition remove (m : t) (key : spatial_key) : option t :=
  c ← contains m key;
  if c : bool then
    item_data_link ← fetch_data_link m key;
    back ← last (m_Data m);
    let replace_key := back.1 in
    swapped ←
      (if bool_decide (key ≠ replace_key) then
         data ← swap_with_back (m_Data m) (N.to_nat item_data_link);
         (* replace_data_link = item_data_link, where replace_data_link is
            fetch_data_link(key): the link of [key] is assigned to itself *)
         Some (<[cell m key := item_data_link]> (m_Map m), data)
       else Some (m_Map m, m_Data m));
    Some (with_store m (<[cell m key := m_EmptySymbol]> swapped.1)
                       (removelast swapped.2))
  else None.


Definition clear (m : t) : t :=
  with_store m (const m_EmptySymbol <$> m_Map m) [].

(** *** Distribution quality *)

Definition sectors : N := 4.

(** The index of the sector of [key] among the 4x4 sectors. *)
Definition sector_of (sector_size : Size_ F) (key : spatial_key) : N :=
  resolve_spatial_key (simplify_key key sector_size)
                      (mkSize (Z.of_N sectors) (Z.of_N sectors)).

(** The loop over [m_Data]: [++sector_buckets[index] > ideal_distribution]
    adds one to [excess].  [sector_buckets] is a [std::array] of 16
    counters; an index outside it gives [None]. *)
Fixpoint count_excess (data : list (spatial_key * T)) (sector_size : Size_ F)
    (ideal_distribution : N) (sector_buckets : list N) (excess : N) : option N :=
  match data with
  | [] => Some excess
  | (key, _) :: rest =>
      let index := N.to_nat (sector_of sector_size key) in
      count ← sector_buckets !! index;
      count_excess rest sector_size ideal_distribution
        (<[index := count + 1]> sector_buckets)
        (if ideal_distribution <? count + 1 then excess + 1 else excess)
  end.

Definition N_to_Q (n : N) : Q := inject_Z (Z.of_N n).

Definition sector_size_of (resolution : Size) : Size_ F :=
  mkSize (f32_div (f32_of_int (width resolution)) (f32_of_size sectors))
         (f32_div (f32_of_int (height resolution)) (f32_of_size sectors)).

(** The [double] result is given as the exact quotient: [excess] and the
    sizes are whole numbers, and [ideal_distribution], the truncation of
    [size / 16.0], is the integer quotient. *)
Definition distribution_quality (m : t) : option Q :=
  if is_empty m then Some 1%Q
  else if (to_size_t (width (m_MapResolution m)) <=? sectors)
          || (to_size_t (height (m_MapResolution m)) <=? sectors)
  then Some (N_to_Q (size m) / N_to_Q (capacity m))%Q
  else
    let sector_size := sector_size_of (m_MapResolution m) in
    let ideal_distribution := size m / (sectors * sectors) in
    excess ← count_excess (m_Data m) sector_size ideal_distribution
                (replicate (N.to_nat (sectors * sectors)) 0) 0;
    Some (1 - N_to_Q excess / N_to_Q (size m - ideal_distribution))%Q.

(** *** The invariant of the two arrays

    Every entry of the data array has a valid key whose cell links back to
    the entry, every link that is not empty points to an entry whose key
    resolves to that cell, and the link array has one cell per key. *)
Record wf (m : t) : Prop := {
  wf_width : (0 ≤ width (m_MapResolution m))%Z;
  wf_height : (0 ≤ height (m_MapResolution m))%Z;
  wf_capacity : length (m_Map m) = Z.to_nat (area (m_MapResolution m));
  wf_size : size m ≤ m_EmptySymbol;
  wf_data : ∀ i key item, m_Data m !! i = Some (key, item) →
      is_key_valid m key = true ∧ fetch_data_link m key = Some (N.of_nat i);
  wf_link : ∀ c link, m_Map m !! c = Some link → link ≠ m_EmptySymbol →
      ∃ key item, m_Data m !! N.to_nat link = Some (key, item) ∧ cell m key = c
}.

(** The part of the invariant that [rescale] alone maintains. *)
Definition geometry_ok (m : t) : Prop :=
  (0 ≤ width (m_MapResolution m))%Z ∧ (0 ≤ height (m_MapResolution m))%Z
  ∧ length (m_Map m) = Z.to_nat (area (m_MapResolution m)).

(** [key] is a key of the resolution [res]. *)
Definition key_in (res : Size) (key : spatial_key) : bool :=
  (px key <? to_size_t (width res)) && (py key <? to_size_t (height res)).

(** [at(key)] as the reference it returns: the position in [m_Data] of the
    value referred to. *)
Definition at_ref (m : t) (key : spatial_key) : option nat :=
  c ← contains m key;
  if c : bool
  then link ← fetch_data_link m key;
       _ ← m_Data m !! N.to_nat link;
       Some (N.to_nat link)
  else None.


(** *** Positions *)

Section Positions.
Context {P : Type} `{Coord F P}.

Definition within_bounds (m : t) (position : Point_ P) : bool :=
  let br := br (m_InputRegion m) in
  between (coord_to_int (px position)) (rect_x (m_InputRegion m)) (px br - 1)
  && between (coord_to_int (py position)) (rect_y (m_InputRegion m)) (py br - 1).

Definition key_of (m : t) (position : Point_ P) : option spatial_key :=
  if within_bounds m position then
    Some (simplify_key
            (mkPoint (coord_sub (px position) (coord_of_int (rect_x (m_InputRegion m))))
                     (coord_sub (py position) (coord_of_int (rect_y (m_InputRegion m)))))
            (m_KeySize m))
  else None.





(** [operator[]]: the value of [T{}] is [default]; the result is the map and
    the position in [m_Data] of the value referred to. *)
Definition subscript (default : T) (m : t) (position : Point_ P) : option (t * nat) :=
  key ← key_of m position;
  c ← contains m key;
  if c : bool
  then i ← at_ref m key; Some (m, i)
  else emplace_at (λ _ : unit, default) m key tt.
End Positions.

End Map.
Arguments t {F} T.
End SpatialMap.


(** The last [n] elements of a list. *)
Definition keep_last {A} (n : nat) (l : list A) : list A := drop (length l - n) l.

(** ** Ring buffers *)

(** Modelled from the spec: the ring buffer class ([SlidingBuffer]), of which
    only the uses are among the sources: a circular sequence of fixed
    capacity that supports [advance] (push, evicting the oldest if full),
    [oldest], [newest], [centre] (the middle element of a full window),
    [full], [window_size] and [clear].  The elements are kept oldest
    first. *)
Module SlidingBuffer.
Section Buffer.
Context {A : Type}.

Record t := mk { window : N; items : list A }.

Definition window_size (b : t) : N := window b.
Definition elements (b : t) : N := N.of_nat (length (items b)).
Definition full (b : t) : bool := elements b =? window b.
Definition clear (b : t) : t := {| window := window b; items := [] |}.

Definition resize (n : N) (b : t) : t :=
  {| window := n; items := drop (length (items b) - N.to_nat n) (items b) |}.

Definition advance (b : t) (a : A) : t :=
  let pushed := items b ++ [a] in
  {| window := window b; items := drop (length pushed - N.to_nat (window b)) pushed |}.

Definition oldest (b : t) : option A := head (items b).
Definition newest (b : t) : option A := last (items b).
Definition previous (b : t) : option A := last (removelast (items b)).
Definition centre (b : t) : option A := items b !! N.to_nat (elements b / 2).

(** Writing through the reference that [advance()] returns. *)
Definition set_newest (b : t) (a : A) : t :=
  {| window := window b; items := removelast (items b) ++ [a] |}.

End Buffer.
Arguments t : clear implicits.
End SlidingBuffer.

(** ** The stabilisation filter *)

(** The image and geometry operations that the filter takes from OpenCV,
    OBS and the rest of LiveVisionKit. *)
Class Vision (Frame ObsFrame Transform BoundingBox Tracker : Type) := {
  Identity : Transform;
  t_add : Transform → Transform → Transform;
  t_sub : Transform → Transform → Transform;
  t_scale : Transform → float → Transform;
  lerp : Transform → Transform → float → Transform;
  bounds_of : Size → Transform → BoundingBox;      (* BoundingBox(size, transform) *)
  bounds_transform : BoundingBox → Transform → BoundingBox;
  encloses : BoundingBox → Rect → bool;
  track : Tracker → Frame → Tracker * Transform;
  frame_size : Frame → Size;
  import_frame : ObsFrame → Frame;                  (* frame << obs_frame *)
  export_frame : Frame → ObsFrame → ObsFrame;       (* frame >> obs_frame *)
  extractChannel : Frame → nat → Frame;
  warpAffine : Frame → Transform → Size → Frame;
  draw_test_mode : Rect → Frame → N → Frame;
  getGaussianKernel : N → float → nat → float      (* kernel.at<double>(i) *)
}.

Module VSFilter.
Section Filter.
Context {Frame ObsFrame Transform BoundingBox Tracker : Type}.
Context `{Vision Frame ObsFrame Transform BoundingBox Tracker}.

Definition SMOOTHING_RADIUS_MIN : N := 2.
Definition SMOOTHING_RADIUS_MAX : N := 30.

(** [uint32_t] arithmetic. *)
Definition u32 (z : Z) : N := Z.to_N (z mod 2 ^ 32).

Record FrameBuffer := { frame : Frame; output : ObsFrame }.
Record FrameVector := mkFrameVector { displacement : Transform; velocity : Transform }.

Definition fv_add (a b : FrameVector) : FrameVector :=
  mkFrameVector (t_add (displacement a) (displacement b))
                (t_add (velocity a) (velocity b)).

Definition fv_scale (a : FrameVector) (scaling : float) : FrameVector :=
  mkFrameVector (t_scale (displacement a) scaling) (t_scale (velocity a) scaling).

Record t := mk {
  m_TestMode : bool;
  m_SmoothingRadius : N;
  m_CropRegion : Rect;
  m_FrameQueue : SlidingBuffer.t FrameBuffer;
  m_Trajectory : SlidingBuffer.t FrameVector;
  m_Filter : SlidingBuffer.t float;
  m_FrameTracker : Tracker
}.

Definition with_buffers (s : t) (queue : SlidingBuffer.t FrameBuffer)
    (trajectory : SlidingBuffer.t FrameVector) : t :=
  {| m_TestMode := m_TestMode s; m_SmoothingRadius := m_SmoothingRadius s;
     m_CropRegion := m_CropRegion s; m_FrameQueue := queue;
     m_Trajectory := trajectory; m_Filter := m_Filter s;
     m_FrameTracker := m_FrameTracker s |}.

(** *** Buffers *)

Definition stabilisation_ready (s : t) : option bool :=
  if Bool.eqb (SlidingBuffer.full (m_Trajectory s)) (SlidingBuffer.full (m_FrameQueue s))
  then Some (SlidingBuffer.full (m_Trajectory s) && SlidingBuffer.full (m_FrameQueue s))
  else None.

(** [while(m_Trajectory.elements() < m_SmoothingRadius - 1)]; [None] when
    [fuel] rounds are not enough. *)
Fixpoint seed_trajectory (fuel : nat) (radius : N) (trajectory : SlidingBuffer.t FrameVector)
    : option (SlidingBuffer.t FrameVector) :=
  if SlidingBuffer.elements trajectory <? u32 (Z.of_N radius - 1) then
    match fuel with
    | O => None
    | S fuel' =>
        last_vector ← SlidingBuffer.newest trajectory;
        seed_trajectory fuel' radius
          (SlidingBuffer.advance trajectory
             (fv_add last_vector (mkFrameVector Identity Identity)))
    end
  else Some trajectory.

Definition reset_buffers (fuel : nat) (s : t) : option t :=
  if SlidingBuffer.window_size (m_FrameQueue s) <? SlidingBuffer.window_size (m_Trajectory s)
  then
    let queue := SlidingBuffer.clear (m_FrameQueue s) in
    let trajectory :=
      SlidingBuffer.advance (SlidingBuffer.clear (m_Trajectory s))
                            (mkFrameVector Identity Identity) in
    trajectory' ← seed_trajectory fuel (m_SmoothingRadius s) trajectory;
    Some (with_buffers s queue trajectory')
  else None.

Definition N_to_float (n : N) : float := PrimFloat.of_uint63 (Uint63.of_Z (Z.of_N n)).

Definition prepare_buffers (fuel : nat) (s : t) (smoothing_radius : N) : option t :=
  if (SMOOTHING_RADIUS_MIN <=? smoothing_radius) && (smoothing_radius mod 2 =? 0) then
    let queue_size := u32 (Z.of_N smoothing_radius + 2) in
    let window_size := u32 (2 * Z.of_N smoothing_radius + 1) in
    let gaussian_kernel :=
      getGaussianKernel window_size (N_to_float window_size / 6)%float in
    reset_buffers fuel
      {| m_TestMode := m_TestMode s;
         m_SmoothingRadius := smoothing_radius;
         m_CropRegion := m_CropRegion s;
         m_FrameQueue := SlidingBuffer.resize queue_size (m_FrameQueue s);
         m_Trajectory := SlidingBuffer.resize window_size (m_Trajectory s);
         m_Filter :=
           foldl SlidingBuffer.advance
             (SlidingBuffer.clear (SlidingBuffer.resize window_size (m_Filter s)))
             (gaussian_kernel <$> seq 0 (N.to_nat window_size));
         m_FrameTracker := m_FrameTracker s |}
  else None.

(** *** Crop enclosure *)

Definition max_t : float := 1%float.
Definition max_iterations : nat := 100.
(** [max_t / max_iterations], the [int] taken as a [double]. *)
Definition step : float := (max_t / 100)%float.

(** The [while] loop of [enclose_crop]; [None] when [fuel] rounds are not
    enough. *)
Fixpoint enclose_loop (fuel : nat) (crop : Rect) (transform : Transform)
    (t : float) (reduced_transform : Transform) (frame_bounds : BoundingBox)
    : option Transform :=
  if PrimFloat.leb t max_t && negb (encloses frame_bounds crop) then
    match fuel with
    | O => None
    | S fuel' =>
        let reduced := lerp transform Identity t in
        enclose_loop fuel' crop transform (t + step)%float reduced
                     (bounds_transform frame_bounds reduced)
    end
  else Some reduced_transform.

Definition enclose_crop (fuel : nat) (s : t) (frame : Frame) (transform : Transform)
    : option Transform :=
  enclose_loop fuel (m_CropRegion s) transform step transform
               (bounds_of (frame_size frame) transform).

(** The fractions [t] that the loop goes through: the [n]-th one. *)
Fixpoint fraction (n : nat) : float :=
  match n with
  | O => step
  | S n' => (fraction n' + step)%float
  end.

(** *** Processing a frame *)

(** Modelled from the spec: [convolve] of the ring buffer, the sum of the
    elements of the window weighted by the kernel. *)
Definition convolve (trajectory : SlidingBuffer.t FrameVector)
    (kernel : SlidingBuffer.t float) : option FrameVector :=
  match zip_with fv_scale (SlidingBuffer.items trajectory) (SlidingBuffer.items kernel) with
  | [] => None
  | v :: vs => Some (foldl fv_add v vs)
  end.

(** [process]: the result is the state and the frame handed back, [None]
    for [nullptr].  [elapsed] is the time the call took, which only the
    overlay of the test mode shows. *)
Definition process (s : t) (obs_frame : ObsFrame) (elapsed : N)
    : option (t * option ObsFrame) :=
  let buffer := {| frame := import_frame obs_frame; output := obs_frame |} in
  let queue := SlidingBuffer.advance (m_FrameQueue s) buffer in
  let tracking_frame := extractChannel (frame buffer) 0 in
  let tracked := track (m_FrameTracker s) tracking_frame in
  let slot := mkFrameVector Identity tracked.2 in
  let advanced := SlidingBuffer.advance (m_Trajectory s) slot in
  before ← SlidingBuffer.previous advanced;
  let motion := mkFrameVector (t_add (displacement before) (velocity slot)) (velocity slot) in
  let trajectory := SlidingBuffer.set_newest advanced motion in
  let s' :=
    {| m_TestMode := m_TestMode s; m_SmoothingRadius := m_SmoothingRadius s;
       m_CropRegion := m_CropRegion s; m_FrameQueue := queue;
       m_Trajectory := trajectory; m_Filter := m_Filter s;
       m_FrameTracker := tracked.1 |} in
  ready ← stabilisation_ready s';
  if ready : bool then
    oldest ← SlidingBuffer.oldest queue;
    centre ← SlidingBuffer.centre trajectory;
    smoothed ← convolve trajectory (m_Filter s);
    let correction := t_sub (displacement smoothed) (displacement centre) in
    let smooth_warp := t_add (velocity centre) correction in
    cropped_warp ← enclose_crop max_iterations s' (frame oldest) smooth_warp;
    let warp_frame :=
      warpAffine (frame oldest) cropped_warp (frame_size (frame oldest)) in
    let shown :=
      if m_TestMode s then draw_test_mode (m_CropRegion s) warp_frame elapsed
      else warp_frame in
    Some (s', Some (export_frame shown (output oldest)))
  else Some (s', None).

(** The buffers are in step: both have the same room left, and the
    trajectory holds at least its seed. *)
Definition in_step (s : t) : Prop :=
  let queue := m_FrameQueue s in
  let trajectory := m_Trajectory s in
  0 < SlidingBuffer.window queue
  ∧ SlidingBuffer.elements queue ≤ SlidingBuffer.window queue
  ∧ SlidingBuffer.elements trajectory ≤ SlidingBuffer.window trajectory
  ∧ 0 < SlidingBuffer.elements trajectory
  ∧ 1 < SlidingBuffer.window trajectory
  ∧ SlidingBuffer.window trajectory - SlidingBuffer.elements trajectory
    = SlidingBuffer.window queue - SlidingBuffer.elements queue
  ∧ 0 < SlidingBuffer.elements (m_Filter s).

(** What a call of [process] hands back, given the state it leaves: nothing
    while the buffers are not full, and otherwise the oldest frame of the
    queue, warped (and overlaid in test mode), written to its OBS frame. *)
Definition hands_back (s : t) (handed : option ObsFrame) : Prop :=
  if SlidingBuffer.full (m_Trajectory s) && SlidingBuffer.full (m_FrameQueue s) then
    ∃ oldest warp shown,
      SlidingBuffer.oldest (m_FrameQueue s) = Some oldest
      ∧ (shown = warpAffine (frame oldest) warp (frame_size (frame oldest))
         ∨ ∃ elapsed, shown = draw_test_mode (m_CropRegion s)
                (warpAffine (frame oldest) warp (frame_size (frame oldest))) elapsed)
      ∧ handed = Some (export_frame shown (output oldest))
  else handed = None.

(** Feeding a sequence of frames, each with the time its call took: the
    state after each call and what the call handed back. *)
Fixpoint feed (s : t) (frames : list (ObsFrame * N))
    : option (list (t * option ObsFrame)) :=
  match frames with
  | [] => Some []
  | (obs_frame, elapsed) :: rest =>
      r ← process s obs_frame elapsed;
      trace ← feed r.1 rest;
      Some (r :: trace)
  end.

(** Whether [fuel] rounds are enough for the loop of [enclose_crop] started
    at the fraction [t], whatever the bounds do. *)
Fixpoint within_budget (fuel : nat) (t : float) : bool :=
  if PrimFloat.leb t max_t then
    match fuel with
    | O => false
    | S fuel' => within_budget fuel' (t + step)%float
    end
  else true.

(** What the search has in [reduced_transform] after [n] rounds. *)
Definition reduction (transform : Transform) (n : nat) : Transform :=
  match n with
  | O => transform
  | S k => lerp transform Identity (fraction k)
  end.

(** *** The rest of the filter *)

(** A [uint32_t] assigned to an [int]. *)
Definition to_i32 (n : N) : Z :=
  if n <? 2 ^ 31 then Z.of_N n else (Z.of_N n - 2 ^ 32)%Z.

(** [tick]: [m_OutputSize] is passed in and handed back beside the filter.
    [crop_of l] is [l * m_CropProportion] as assigned to a [uint32_t], a
    [float] product left to the caller. *)
Definition tick (crop_of : Z → N) (s : t) (m_OutputSize : Size) : option (t * Size) :=
  ready ← stabilisation_ready s;
  if ready : bool then
    oldest ← SlidingBuffer.oldest (m_FrameQueue s);
    let frame_size := frame_size (frame oldest) in
    let total_horz_crop := crop_of (width frame_size) in
    let total_vert_crop := crop_of (height frame_size) in
    let crop_region :=
      mkRect (Z.of_N (total_horz_crop / 2)) (Z.of_N (total_vert_crop / 2))
             (to_i32 (u32 (width frame_size - Z.of_N total_horz_crop)))
             (to_i32 (u32 (height frame_size - Z.of_N total_vert_crop))) in
    Some ({| m_TestMode := m_TestMode s; m_SmoothingRadius := m_SmoothingRadius s;
             m_CropRegion := crop_region; m_FrameQueue := m_FrameQueue s;
             m_Trajectory := m_Trajectory s; m_Filter := m_Filter s;
             m_FrameTracker := m_FrameTracker s |},
          if m_TestMode s then frame_size else rect_size crop_region)
  else Some (s, m_OutputSize).

(** [reset]: [reset_tracker] is [FrameTracker::reset]. *)
Definition reset (fuel : nat) (reset_tracker : Tracker → Tracker) (s : t) : option t :=
  s' ← reset_buffers fuel s;
  Some {| m_TestMode := m_TestMode s'; m_SmoothingRadius := m_SmoothingRadius s';
          m_CropRegion := m_CropRegion s'; m_FrameQueue := m_FrameQueue s';
          m_Trajectory := m_Trajectory s'; m_Filter := m_Filter s';
          m_FrameTracker := reset_tracker (m_FrameTracker s') |}.

(** The buffers have the sizes that [prepare_buffers] gives them for the
    radius of the filter. *)
Definition configured (s : t) : Prop :=
  SMOOTHING_RADIUS_MIN ≤ m_SmoothingRadius s ≤ SMOOTHING_RADIUS_MAX
  ∧ m_SmoothingRadius s mod 2 = 0
  ∧ SlidingBuffer.window (m_FrameQueue s) = m_SmoothingRadius s + 2
  ∧ SlidingBuffer.window (m_Trajectory s) = 2 * m_SmoothingRadius s + 1
  ∧ 0 < SlidingBuffer.elements (m_Filter s).

(** The entry of the frame queue for an OBS frame. *)
Definition buffer_of (obs_frame : ObsFrame) : FrameBuffer :=
  {| frame := import_frame obs_frame; output := obs_frame |}.

(** The loop of [enclose_crop] when nothing encloses the crop: only the
    fractions decide how long it runs. *)
Fixpoint reduce_all (fuel : nat) (transform : Transform) (t : float)
    (reduced : Transform) : option Transform :=
  if PrimFloat.leb t max_t then
    match fuel with
    | O => None
    | S fuel' => reduce_all fuel' transform (t + step)%float (lerp transform Identity t)
    end
  else Some reduced.

End Filter.
Arguments t : clear implicits.
End VSFilter.

(** ** Concrete maps and a concrete filter

    Small instances on which the definitions are run: maps of [nat] values
    with exact arithmetic for [float], and a filter whose transforms are
    horizontal shifts of a frame 100 pixels wide. *)
Module Examples.

(** The sentinel of the examples: the greatest [size_t]. *)
Definition size_max : N := 2 ^ 64 - 1.

Definition k00 : spatial_key := mkPoint 0 0.
Definition k10 : spatial_key := mkPoint 1 0.
Definition region : Rect := mkRect 0 0 4 4.

(** A map before its constructor has called [rescale]. *)
Definition blank : SpatialMap.t nat :=
  SpatialMap.mk (mkRect 0 0 0 0) (mkSize 0 0)%Z (mkSize 0 0)%Q [] [].

(** The 2x2 map over [region], empty, with 10 at (0,0), and with 20 at
    (1,0) as well. *)
Definition grid (links : list N) (data : list (spatial_key * nat)) : SpatialMap.t nat :=
  SpatialMap.mk region (mkSize 2 2)%Z (mkSize (4 # 2) (4 # 2))%Q links data.

Definition grid0 : SpatialMap.t nat := grid [size_max; size_max; size_max; size_max] [].
Definition grid1 : SpatialMap.t nat :=
  grid [0; size_max; size_max; size_max] [(k00, 10%nat)].
Definition grid2 : SpatialMap.t nat :=
  grid [0; 1; size_max; size_max] [(k00, 10%nat); (k10, 20%nat)].


(** Frames are numbered, a transform is a shift to the right, and a shifted
    frame encloses a crop region only if the region is no wider than the
    frame and the shift is zero. *)
#[global] Instance ShiftModel : Vision nat nat float float unit := {|
  Identity := 0%float;
  t_add := PrimFloat.add;
  t_sub := PrimFloat.sub;
  t_scale := PrimFloat.mul;
  lerp := λ a b t, (a + t * (b - a))%float;
  bounds_of := λ _ shift, shift;
  bounds_transform := λ _ shift, shift;
  encloses := λ shift crop, (rect_width crop <=? 100)%Z && PrimFloat.eqb shift 0;
  track := λ tracker _, (tracker, 0%float);
  frame_size := λ _, mkSize 100%Z 100%Z;
  import_frame := id;
  export_frame := λ frame _, frame;
  extractChannel := λ frame _, frame;
  warpAffine := λ frame _ _, frame;
  draw_test_mode := λ _ frame _, frame;
  getGaussianKernel := λ _ _ _, 1%float
|}.

Definition still : VSFilter.FrameVector (Transform := float) :=
  VSFilter.mkFrameVector 0%float 0%float.

(** A filter that was never configured, with a crop of the given width. *)
Definition idle (crop_width : Z) : VSFilter.t nat nat float unit :=
  VSFilter.mk false 0 (mkRect 0 0 crop_width 90)
    (SlidingBuffer.mk 0 []) (SlidingBuffer.mk 0 []) (SlidingBuffer.mk 0 []) tt.

(** The filter after [prepare_buffers] with radius 2. *)
Definition prepared : VSFilter.t nat nat float unit :=
  VSFilter.mk false 2 (mkRect 0 0 90 90)
    (SlidingBuffer.mk 4 []) (SlidingBuffer.mk 5 [still])
    (SlidingBuffer.mk 5 [1; 1; 1; 1; 1]%float) tt.

(** The map that [remove] of (0,0) leaves of [grid2]: the link of (1,0)
    points past the only entry. *)
Definition stale : SpatialMap.t nat :=
  grid [size_max; 1; size_max; size_max] [(k10, 20%nat)].

(** The filter [prepared] after four frames, both buffers full. *)
Definition filled : VSFilter.t nat nat float unit :=
  VSFilter.mk false 2 (mkRect 0 0 90 90)
    (SlidingBuffer.mk 4 (VSFilter.buffer_of <$> [1; 2; 3; 4]%nat))
    (SlidingBuffer.mk 5 [still; still; still; still; still])
    (SlidingBuffer.mk 5 [1; 1; 1; 1; 1]%float) tt.

(** A crop of five percent. *)
Definition five_percent (length : Z) : N := Z.to_N (length / 20).

End Examples.

(** * Properties of SpatialMap *)

Lemma to_size_t_nonneg z : (0 ≤ z)%Z → to_size_t z = Z.to_N z.
Proof.
  intros Hz. unfold to_size_t.
  destruct (Z.ltb_spec z 0); [lia | done].
Qed.

Section MapFacts.
Context {F : Type} `{Float32 F}.
Context (T : Type) (E : N).

Local Abbreviation map := (SpatialMap.t (F:=F) T).

Implicit Types (m : map) (key : spatial_key) (item : T).

(** ** Keys and cells *)


Lemma key_in_bounds res key :
  (0 ≤ width res)%Z → (0 ≤ height res)%Z → SpatialMap.key_in res key = true →
  (Z.of_N (px key) < width res)%Z ∧ (Z.of_N (py key) < height res)%Z.
Proof.
  intros Hw Hh. unfold SpatialMap.key_in.
  rewrite !to_size_t_nonneg by done.
  intros [?%N.ltb_lt ?%N.ltb_lt]%andb_prop. lia.
Qed.

Lemma cell_in_range m key :
  SpatialMap.geometry_ok m → SpatialMap.is_key_valid m key = true →
  (SpatialMap.cell m key < length (SpatialMap.m_Map m))%nat.
Proof.
  intros (Hw & Hh & Hcap) Hvalid.
  destruct (key_in_bounds _ _ Hw Hh Hvalid) as [Hx Hy].
  rewrite Hcap. unfold SpatialMap.cell, SpatialMap.resolve_spatial_key, index_2d, area.
  rewrite to_size_t_nonneg by done.
  apply Nat2Z.inj_lt. rewrite N_nat_Z, Z2Nat.id by nia.
  rewrite N2Z.inj_add, N2Z.inj_mul, Z2N.id by done. nia.
Qed.

Lemma cell_inj m key1 key2 :
  (0 ≤ width (SpatialMap.m_MapResolution m))%Z →
  (0 ≤ height (SpatialMap.m_MapResolution m))%Z →
  SpatialMap.is_key_valid m key1 = true → SpatialMap.is_key_valid m key2 = true →
  SpatialMap.cell m key1 = SpatialMap.cell m key2 → key1 = key2.
Proof.
  intros Hw Hh H1 H2 Hcell.
  destruct (key_in_bounds _ _ Hw Hh H1) as [Hx1 _].
  destruct (key_in_bounds _ _ Hw Hh H2) as [Hx2 _].
  unfold SpatialMap.cell, SpatialMap.resolve_spatial_key, index_2d in Hcell.
  apply N2Nat.inj in Hcell. rewrite to_size_t_nonneg in Hcell by done.
  destruct key1 as [x1 y1], key2 as [x2 y2]; simpl in *.
  assert (y1 = y2) by nia. subst. f_equal. lia.
Qed.

Lemma wf_geometry m : SpatialMap.wf E m → SpatialMap.geometry_ok m.
Proof. intros []; by repeat split. Qed.

Lemma fetch_in_range m key :
  SpatialMap.geometry_ok m → SpatialMap.is_key_valid m key = true →
  is_Some (SpatialMap.fetch_data_link m key).
Proof.
  intros. apply lookup_lt_is_Some. by apply cell_in_range.
Qed.

(** ** Entries of a well-formed map *)

Lemma wf_index_lt m i key item :
  SpatialMap.wf E m → SpatialMap.m_Data m !! i = Some (key, item) → N.of_nat i ≠ E.
Proof.
  intros Hwf Hi. apply lookup_lt_Some in Hi.
  pose proof (SpatialMap.wf_size E m Hwf) as Hs.
  unfold SpatialMap.size in Hs. lia.
Qed.

Lemma wf_at m i key item :
  SpatialMap.wf E m → SpatialMap.m_Data m !! i = Some (key, item) →
  SpatialMap.at_ E m key = Some item.
Proof.
  intros Hwf Hi.
  destruct (SpatialMap.wf_data E m Hwf _ _ _ Hi) as [Hvalid Hlink].
  unfold SpatialMap.at_, SpatialMap.contains. rewrite Hvalid, Hlink. simpl.
  unfold SpatialMap.is_data_link_empty.
  destruct (N.eqb_spec (N.of_nat i) E) as [Heq|_].
  - by apply wf_index_lt in Hi.
  - simpl. by rewrite Nat2N.id, Hi.
Qed.

Lemma wf_at_inv m key item :
  SpatialMap.wf E m → SpatialMap.at_ E m key = Some item →
  ∃ i, SpatialMap.m_Data m !! i = Some (key, item).
Proof.
  intros Hwf. unfold SpatialMap.at_, SpatialMap.contains.
  destruct (SpatialMap.is_key_valid m key) eqn:Hvalid; [|done].
  destruct (SpatialMap.fetch_data_link m key) as [link|] eqn:Hlink; [|done]. simpl.
  unfold SpatialMap.is_data_link_empty.
  destruct (N.eqb_spec link E) as [|Hne]; [done|]. simpl.
  destruct (SpatialMap.wf_link E m Hwf _ _ Hlink Hne) as (key' & item' & Hi & Hcell).
  rewrite Hi. simpl. intros [= <-].
  destruct (SpatialMap.wf_data E m Hwf _ _ _ Hi) as [Hvalid' _].
  assert (key' = key) as ->.
  { apply (cell_inj m); try done; by destruct Hwf. }
  eauto.
Qed.


Lemma wf_keys_NoDup m : SpatialMap.wf E m → NoDup (SpatialMap.m_Data m).*1.
Proof.
  intros Hwf. apply NoDup_alt. intros i j key.
  rewrite !list_lookup_fmap.
  destruct (SpatialMap.m_Data m !! i) as [[k1 v1]|] eqn:Hi; [|done].
  destruct (SpatialMap.m_Data m !! j) as [[k2 v2]|] eqn:Hj; [|done].
  simpl. intros [= ->] [= ->].
  destruct (SpatialMap.wf_data E m Hwf _ _ _ Hi) as [_ Hl1].
  destruct (SpatialMap.wf_data E m Hwf _ _ _ Hj) as [_ Hl2].
  rewrite Hl1 in Hl2. injection Hl2. lia.
Qed.


(** ** Placing at an empty cell *)

Lemma place_at_fresh m key item :
  SpatialMap.wf E m → SpatialMap.is_key_valid m key = true →
  SpatialMap.fetch_data_link m key = Some E → SpatialMap.size m < E →
  let m' := SpatialMap.with_store m
              (<[SpatialMap.cell m key := SpatialMap.size m]> (SpatialMap.m_Map m))
              (SpatialMap.m_Data m ++ [(key, item)]) in
  SpatialMap.place_at E m key item = Some (m', length (SpatialMap.m_Data m))
  ∧ SpatialMap.wf E m'.
Proof.
  intros Hwf Hvalid Hlink Hsize m'. split.
  { unfold SpatialMap.place_at. rewrite Hvalid, Hlink. simpl.
    unfold SpatialMap.is_data_link_empty. by rewrite N.eqb_refl. }
  assert (SpatialMap.cell m key < length (SpatialMap.m_Map m))%nat as Hcell
    by (by eapply lookup_lt_Some).
  destruct Hwf as [Hw Hh Hcap Hsz Hdata Hlinks]. split; simpl.
  - done.
  - done.
  - by rewrite length_insert.
  - unfold SpatialMap.size in *. simpl. rewrite length_app. simpl. lia.
  - intros i key' item' Hi.
    apply lookup_app_Some in Hi as [Hi|[Hlen Hi]].
    + destruct (Hdata _ _ _ Hi) as [Hv Hl]. split; [done|].
      unfold SpatialMap.fetch_data_link in *. simpl.
      change (SpatialMap.cell m' key') with (SpatialMap.cell m key').
      rewrite list_lookup_insert_ne; [done|].
      intros Heq. rewrite <- Heq, Hlink in Hl. injection Hl as Hl.
      apply lookup_lt_Some in Hi. unfold SpatialMap.size in Hsize. lia.
    + apply list_lookup_singleton_Some in Hi as [Hi0 [= <- <-]].
      split; [done|].
      unfold SpatialMap.fetch_data_link. simpl.
      change (SpatialMap.cell m' key) with (SpatialMap.cell m key).
      rewrite list_lookup_insert_eq by done.
      unfold SpatialMap.size. do 2 f_equal. lia.
  - intros c link Hc Hne.
    apply list_lookup_insert_Some in Hc as [(<- & <- & _)|[Hcne Hc]].
    + exists key, item. split; [|done].
      unfold SpatialMap.size. rewrite Nat2N.id.
      rewrite lookup_app_r by done. by rewrite Nat.sub_diag.
    + destruct (Hlinks _ _ Hc Hne) as (key' & item' & Hi & Hk).
      exists key', item'. split; [|done]. by apply lookup_app_l_Some.
Qed.

(** ** Re-inserting the old entries *)

Lemma reinsert_geometry old : ∀ m m',
  SpatialMap.reinsert E old m = Some m' →
  SpatialMap.m_MapResolution m' = SpatialMap.m_MapResolution m
  ∧ SpatialMap.m_InputRegion m' = SpatialMap.m_InputRegion m
  ∧ SpatialMap.m_KeySize m' = SpatialMap.m_KeySize m.
Proof.
  induction old as [|[key item] rest IH]; intros m m'; simpl.
  - by intros [= ->].
  - destruct (SpatialMap.is_key_valid m key) eqn:Hvalid; [|by apply IH].
    destruct (SpatialMap.place_at E m key item) as [[m1 i]|] eqn:Hplace; [|done].
    simpl. intros Hrest. apply IH in Hrest as (-> & -> & ->).
    unfold SpatialMap.place_at in Hplace. rewrite Hvalid in Hplace.
    destruct (SpatialMap.fetch_data_link m key) as [link|]; [|done]. simpl in Hplace.
    destruct (SpatialMap.is_data_link_empty E link).
    + by injection Hplace as <- _.
    + destruct (SpatialMap.vector_emplace _ _ _); [|done]. by injection Hplace as <- _.
Qed.


(** ** Rescaling *)

Lemma rescale_fresh_wf resolution input_region (key_size : Size_ F) :
  SpatialMap.rescale_pre resolution input_region = true →
  SpatialMap.wf E
    (SpatialMap.mk input_region resolution key_size
       (replicate (N.to_nat (to_size_t (area resolution))) E) ([] : list (spatial_key * T))).
Proof.
  unfold SpatialMap.rescale_pre. intros Hpre.
  apply andb_prop in Hpre as [[[Hw%Z.leb_le Hh%Z.leb_le]%andb_prop _]%andb_prop _].
  assert (0 ≤ area resolution)%Z by (unfold area; nia).
  split; simpl; try lia.
  - rewrite length_replicate, to_size_t_nonneg by done. lia.
  - unfold SpatialMap.size. simpl. lia.
  - intros i key item Hi. by rewrite lookup_nil in Hi.
  - intros c link [-> _]%lookup_replicate. done.
Qed.

Lemma same_geometry_stays m :
  bool_decide (SpatialMap.m_MapResolution m ≠ SpatialMap.m_MapResolution m
               ∨ SpatialMap.m_InputRegion m ≠ SpatialMap.m_InputRegion m) = false.
Proof. apply bool_decide_eq_false. by intros [?|?]. Qed.

Lemma same_geometry_eq (resolution resolution' : Size) (region region' : Rect) :
  ¬ (resolution ≠ resolution' ∨ region ≠ region') →
  resolution = resolution' ∧ region = region'.
Proof.
  intros Hsame.
  destruct (decide (resolution = resolution')); [|by destruct Hsame; left].
  destruct (decide (region = region')); [done|by destruct Hsame; right].
Qed.



(** C8: [rescale] with the resolution and the input region that the map
    already has returns the map as it is, and a second [rescale] with the
    arguments of a first one changes nothing. *)
Theorem rescale_same_geometry m :
  (SpatialMap.rescale_pre (SpatialMap.resolution m) (SpatialMap.input_region m) = true →
   SpatialMap.rescale E m (SpatialMap.resolution m) (SpatialMap.input_region m) = Some m)
  ∧ (∀ resolution input_region m',
       SpatialMap.rescale E m resolution input_region = Some m' →
       SpatialMap.rescale E m' resolution input_region = Some m').
Proof.
  split.
  - intros Hpre. unfold SpatialMap.rescale, SpatialMap.resolution, SpatialMap.input_region in *.
    by rewrite Hpre, same_geometry_stays.
  - intros resolution input_region m'. unfold SpatialMap.rescale at 1.
    destruct (SpatialMap.rescale_pre resolution input_region) eqn:Hpre; [|done].
    case_bool_decide as Hchange.
    + intros (Hres & Hreg & _)%reinsert_geometry. simpl in *.
      unfold SpatialMap.rescale. rewrite Hpre, <- Hres, <- Hreg.
      by rewrite same_geometry_stays.
    + intros [= <-].
      assert (resolution = SpatialMap.m_MapResolution m
              ∧ input_region = SpatialMap.m_InputRegion m) as [-> ->].
      { by apply same_geometry_eq. }
      unfold SpatialMap.rescale. by rewrite Hpre, same_geometry_stays.
Qed.

(** ** Clearing *)

(** C10: after [clear] the map holds no entry: its size is 0, it is empty
    and [contains] is true of no key, and false of every valid key when the
    link array has one cell per key; the resolution, the input region, the
    key size and the capacity are what they were. *)
Theorem clear_empties m :
  SpatialMap.size (SpatialMap.clear E m) = 0
  ∧ SpatialMap.is_empty (SpatialMap.clear E m) = true
  ∧ (∀ key, SpatialMap.contains E (SpatialMap.clear E m) key ≠ Some true)
  ∧ (SpatialMap.geometry_ok m →
     ∀ key, SpatialMap.is_key_valid (SpatialMap.clear E m) key = true →
            SpatialMap.contains E (SpatialMap.clear E m) key = Some false)
  ∧ SpatialMap.resolution (SpatialMap.clear E m) = SpatialMap.resolution m
  ∧ SpatialMap.input_region (SpatialMap.clear E m) = SpatialMap.input_region m
  ∧ SpatialMap.key_size (SpatialMap.clear E m) = SpatialMap.key_size m
  ∧ SpatialMap.capacity (SpatialMap.clear E m) = SpatialMap.capacity m.
Proof.
  assert (∀ key link,
    SpatialMap.fetch_data_link (SpatialMap.clear E m) key = Some link → link = E) as Hlinks.
  { intros key link. unfold SpatialMap.fetch_data_link, SpatialMap.clear. simpl.
    rewrite list_lookup_fmap. by destruct (_ !! _); intros [= <-]. }
  repeat split; try done.
  - intros key. unfold SpatialMap.contains.
    destruct (SpatialMap.is_key_valid _ key); [|done].
    destruct (SpatialMap.fetch_data_link _ key) as [link|] eqn:Hlink; [|done].
    apply Hlinks in Hlink as ->. simpl.
    unfold SpatialMap.is_data_link_empty. by rewrite N.eqb_refl.
  - intros Hgeo key Hvalid. unfold SpatialMap.contains. rewrite Hvalid.
    destruct (fetch_in_range (SpatialMap.clear E m) key) as [link Hlink]; [|done|].
    { destruct Hgeo as (? & ? & ?). repeat split; try done.
      simpl. by rewrite length_fmap. }
    rewrite Hlink. apply Hlinks in Hlink as ->. simpl.
    unfold SpatialMap.is_data_link_empty. by rewrite N.eqb_refl.
  - unfold SpatialMap.capacity, SpatialMap.clear. simpl. by rewrite length_fmap.
Qed.

(** ** Placing at an occupied cell, removing an entry that is not the last *)

Lemma place_at_occupied_grows m key item link :
  SpatialMap.is_key_valid m key = true →
  SpatialMap.fetch_data_link m key = Some link → link ≠ E →
  (N.to_nat link ≤ length (SpatialMap.m_Data m))%nat →
  ∃ m', SpatialMap.place_at E m key item = Some (m', N.to_nat link)
    ∧ SpatialMap.size m' = SpatialMap.size m + 1
    ∧ SpatialMap.m_Map m' = SpatialMap.m_Map m
    ∧ SpatialMap.m_Data m'
      = take (N.to_nat link) (SpatialMap.m_Data m)
        ++ (key, item) :: drop (N.to_nat link) (SpatialMap.m_Data m).
Proof.
  intros Hvalid Hlink Hne Hle. unfold SpatialMap.place_at.
  rewrite Hvalid, Hlink. simpl. unfold SpatialMap.is_data_link_empty.
  destruct (N.eqb_spec link E) as [|_]; [done|].
  unfold SpatialMap.vector_emplace. rewrite decide_True by done. simpl.
  eexists. split; [done|]. split_and!; try done.
  unfold SpatialMap.size. simpl.
  rewrite length_app, length_take_le by done. simpl. rewrite length_drop. lia.
Qed.


End MapFacts.

Section PositionFacts.
Context {F : Type} `{Float32 F} {T : Type} (E : N).
Context {P : Type} `{Coord F P}.

Local Abbreviation map := (SpatialMap.t (F:=F) T).
Implicit Types (m : map) (key : spatial_key) (item : T) (position : Point_ P).

Lemma emplace_at_place_at {Args} (construct : Args → T) m key args :
  SpatialMap.emplace_at E construct m key args
  = SpatialMap.place_at E m key (construct args).
Proof. reflexivity. Qed.




End PositionFacts.

(** ** Counting the excess *)



Section QualityFacts.
Context {F : Type} `{Float32 F} {T : Type}.

Local Abbreviation map := (SpatialMap.t (F:=F) T).






End QualityFacts.

(** ** Sectors with exact division *)

Lemma exact_sector_coordinate (x w : Z) :
  (0 ≤ x < w)%Z →
  Q_to_size (inject_Z x / (inject_Z w / inject_Z 4)) < 4.
Proof.
  intros Hx. unfold Q_to_size.
  change (Qnum ?q / Zpos (Qden ?q))%Z with (Qfloor q).
  set (q := (inject_Z x / (inject_Z w / inject_Z 4))%Q).
  assert (q < inject_Z 4)%Q as Hq.
  { unfold q. apply Qlt_shift_div_r.
    - apply Qlt_shift_div_l; [reflexivity|]. rewrite Qmult_0_l.
      change 0%Q with (inject_Z 0). rewrite <- Zlt_Qlt. lia.
    - assert (inject_Z 4 * (inject_Z w / inject_Z 4) == inject_Z w)%Q as ->
        by (field; discriminate).
      rewrite <- Zlt_Qlt. lia. }
  assert (Qfloor q < 4)%Z.
  { rewrite Zlt_Qlt. eapply Qle_lt_trans; [apply Qfloor_le|done]. }
  lia.
Qed.

Lemma exact_sector_in_range (T : Type) (m : SpatialMap.t (F:=Q) T) key :
  (4 < width (SpatialMap.resolution m))%Z → (4 < height (SpatialMap.resolution m))%Z →
  SpatialMap.is_key_valid m key = true →
  SpatialMap.sector_of (SpatialMap.sector_size_of (SpatialMap.resolution m)) key
  < SpatialMap.sectors * SpatialMap.sectors.
Proof.
  unfold SpatialMap.resolution. intros Hw Hh Hvalid.
  destruct (key_in_bounds (SpatialMap.m_MapResolution m) key) as [Hx Hy];
    [lia|lia|exact Hvalid|].
  unfold SpatialMap.sector_of, SpatialMap.resolve_spatial_key, index_2d,
    SpatialMap.simplify_key, SpatialMap.sector_size_of. simpl.
  pose proof (exact_sector_coordinate (Z.of_N (px key)) _ (conj (N2Z.is_nonneg _) Hx)).
  pose proof (exact_sector_coordinate (Z.of_N (py key)) _ (conj (N2Z.is_nonneg _) Hy)).
  change (to_size_t 4) with 4. change (SpatialMap.sectors * SpatialMap.sectors) with 16.
  change (Z.of_N SpatialMap.sectors) with 4%Z in *.
  lia.
Qed.

Lemma exact_sectors_of_data (T : Type) (E : N) (m : SpatialMap.t (F:=Q) T) :
  SpatialMap.wf E m →
  (4 < width (SpatialMap.resolution m))%Z → (4 < height (SpatialMap.resolution m))%Z →
  Forall (λ entry,
            SpatialMap.sector_of (SpatialMap.sector_size_of (SpatialMap.resolution m))
                                 entry.1
            < SpatialMap.sectors * SpatialMap.sectors)
         (SpatialMap.m_Data m).
Proof.
  intros Hwf Hw Hh. apply Forall_lookup. intros i [key item] Hentry.
  apply exact_sector_in_range; [done..|].
  by destruct (SpatialMap.wf_data E m Hwf _ _ _ Hentry).
Qed.

(** * Properties of the ring buffers *)

Section BufferFacts.
Context {A : Type}.
Implicit Types (b : SlidingBuffer.t A) (a : A).

Lemma elements_advance b a :
  SlidingBuffer.elements (SlidingBuffer.advance b a)
  = N.min (SlidingBuffer.elements b + 1) (SlidingBuffer.window b).
Proof.
  unfold SlidingBuffer.elements, SlidingBuffer.advance. simpl.
  rewrite length_drop, length_app. simpl. lia.
Qed.

Lemma advance_items b a :
  SlidingBuffer.elements b ≤ SlidingBuffer.window b → 0 < SlidingBuffer.window b →
  ∃ kept, SlidingBuffer.items (SlidingBuffer.advance b a) = kept ++ [a]
          ∧ (1 < SlidingBuffer.window b → last kept = last (SlidingBuffer.items b)).
Proof.
  unfold SlidingBuffer.elements, SlidingBuffer.advance. simpl. intros Hle Hpos.
  rewrite length_app. simpl.
  set (k := (length (SlidingBuffer.items b) + 1 - N.to_nat (SlidingBuffer.window b))%nat).
  assert (k ≤ length (SlidingBuffer.items b))%nat as Hk by lia.
  rewrite drop_app_le by done.
  exists (drop k (SlidingBuffer.items b)). split; [done|].
  intros Hwide. rewrite !last_lookup, length_drop, lookup_drop.
  destruct (decide (length (SlidingBuffer.items b) = 0)%nat) as [Hnil|Hsome].
  - apply nil_length_inv in Hnil. by rewrite Hnil.
  - f_equal. lia.
Qed.

Lemma elements_set_newest b a :
  0 < SlidingBuffer.elements b →
  SlidingBuffer.elements (SlidingBuffer.set_newest b a) = SlidingBuffer.elements b.
Proof.
  unfold SlidingBuffer.elements, SlidingBuffer.set_newest. simpl.
  destruct (SlidingBuffer.items b) as [|first rest] using rev_ind; [simpl; lia|].
  intros _. by rewrite removelast_last, !length_app.
Qed.

Lemma elements_foldl_advance (l : list A) : ∀ b,
  SlidingBuffer.elements b ≤ SlidingBuffer.window b →
  SlidingBuffer.elements (foldl SlidingBuffer.advance b l)
  = N.min (SlidingBuffer.elements b + N.of_nat (length l)) (SlidingBuffer.window b).
Proof.
  induction l as [|a l IH]; intros b Hle; simpl; [lia|].
  rewrite IH; rewrite elements_advance; simpl; lia.
Qed.

Lemma oldest_is_Some b :
  0 < SlidingBuffer.elements b → is_Some (SlidingBuffer.oldest b).
Proof.
  unfold SlidingBuffer.elements, SlidingBuffer.oldest.
  destruct (SlidingBuffer.items b); simpl; [lia|eauto].
Qed.

Lemma newest_is_Some b :
  0 < SlidingBuffer.elements b → is_Some (SlidingBuffer.newest b).
Proof.
  unfold SlidingBuffer.elements, SlidingBuffer.newest. intros Hpos.
  rewrite last_lookup. apply lookup_lt_is_Some. lia.
Qed.

Lemma centre_is_Some b :
  0 < SlidingBuffer.elements b → is_Some (SlidingBuffer.centre b).
Proof.
  unfold SlidingBuffer.centre. intros Hpos. apply lookup_lt_is_Some.
  pose proof (N.div_lt (SlidingBuffer.elements b) 2 Hpos).
  unfold SlidingBuffer.elements in *. lia.
Qed.

End BufferFacts.

(** * Properties of the stabilisation filter *)

Lemma u32_small z : (0 ≤ z < 2 ^ 32)%Z → VSFilter.u32 z = Z.to_N z.
Proof. intros Hz. unfold VSFilter.u32. by rewrite Z.mod_small. Qed.

Section FilterFacts.
Context {Frame ObsFrame Transform BoundingBox Tracker : Type}.
Context `{Vision Frame ObsFrame Transform BoundingBox Tracker}.

Local Abbreviation filter := (VSFilter.t Frame ObsFrame Transform Tracker).
Implicit Types (s : filter).

(** ** The crop search *)

Lemma enclose_loop_total fuel crop transform : ∀ t reduced frame_bounds,
  VSFilter.within_budget fuel t = true →
  is_Some (VSFilter.enclose_loop fuel crop transform t reduced frame_bounds).
Proof.
  induction fuel as [|fuel IH]; intros t reduced frame_bounds; simpl.
  - destruct (PrimFloat.leb t VSFilter.max_t); [done|]. simpl. eauto.
  - destruct (PrimFloat.leb t VSFilter.max_t); simpl; [|eauto].
    intros Hbudget. destruct (negb _); [by apply IH|eauto].
Qed.

Lemma budget_of_search : VSFilter.within_budget VSFilter.max_iterations VSFilter.step = true.
Proof. vm_compute. reflexivity. Qed.

Lemma enclose_crop_total s frame transform :
  is_Some (VSFilter.enclose_crop VSFilter.max_iterations s frame transform).
Proof. apply enclose_loop_total, budget_of_search. Qed.

Lemma enclose_loop_never fuel crop transform :
  (∀ frame_bounds, encloses frame_bounds crop = false) →
  ∀ t reduced frame_bounds,
    VSFilter.enclose_loop fuel crop transform t reduced frame_bounds
    = VSFilter.reduce_all fuel transform t reduced.
Proof.
  intros Hnever. induction fuel as [|fuel IH]; intros t reduced frame_bounds; simpl;
    rewrite Hnever, andb_true_r; [done|].
  destruct (PrimFloat.leb t VSFilter.max_t); [apply IH|done].
Qed.


(** ** Seeding and preparing the buffers *)

Lemma seed_trajectory_spec radius : ∀ fuel (trajectory : SlidingBuffer.t VSFilter.FrameVector),
  1 ≤ radius → radius < 2 ^ 32 →
  0 < SlidingBuffer.elements trajectory →
  SlidingBuffer.elements trajectory ≤ SlidingBuffer.window trajectory →
  radius - 1 ≤ SlidingBuffer.window trajectory →
  (N.to_nat (radius - 1 - SlidingBuffer.elements trajectory) ≤ fuel)%nat →
  ∃ trajectory',
    VSFilter.seed_trajectory fuel radius trajectory = Some trajectory'
    ∧ SlidingBuffer.window trajectory' = SlidingBuffer.window trajectory
    ∧ SlidingBuffer.elements trajectory'
      = N.max (SlidingBuffer.elements trajectory) (radius - 1).
Proof.
  intros fuel trajectory Hone Hu32. revert trajectory.
  assert (VSFilter.u32 (Z.of_N radius - 1) = radius - 1) as Hminus.
  { rewrite u32_small by lia. lia. }
  induction fuel as [|fuel IH]; intros trajectory Hpos Hle Hroom Hfuel; simpl;
    rewrite Hminus.
  - destruct (N.ltb_spec (SlidingBuffer.elements trajectory) (radius - 1)); [lia|].
    exists trajectory. split_and!; [done|done|lia].
  - destruct (N.ltb_spec (SlidingBuffer.elements trajectory) (radius - 1)) as [Hlt|Hge].
    + destruct (newest_is_Some trajectory Hpos) as [last_vector ->]. simpl.
      set (next := SlidingBuffer.advance trajectory _).
      assert (SlidingBuffer.elements next = SlidingBuffer.elements trajectory + 1) as Hnext.
      { unfold next. rewrite elements_advance. lia. }
      destruct (IH next) as (trajectory' & Hrun & Hwindow & Helements).
      * lia.
      * rewrite Hnext. unfold next. simpl. lia.
      * done.
      * lia.
      * exists trajectory'. split_and!; [done|done|lia].
    + exists trajectory. split_and!; [done|done|lia].
Qed.

Lemma prepare_buffers_spec fuel s radius :
  VSFilter.SMOOTHING_RADIUS_MIN ≤ radius → radius ≤ VSFilter.SMOOTHING_RADIUS_MAX →
  radius mod 2 = 0 → (N.to_nat radius ≤ fuel)%nat →
  ∃ s', VSFilter.prepare_buffers fuel s radius = Some s'
    ∧ VSFilter.m_SmoothingRadius s' = radius
    ∧ SlidingBuffer.window (VSFilter.m_FrameQueue s') = radius + 2
    ∧ SlidingBuffer.window (VSFilter.m_Trajectory s') = 2 * radius + 1
    ∧ SlidingBuffer.elements (VSFilter.m_FrameQueue s') = 0
    ∧ SlidingBuffer.elements (VSFilter.m_Trajectory s') = radius - 1
    ∧ SlidingBuffer.elements (VSFilter.m_Filter s') = 2 * radius + 1.
Proof.
  unfold VSFilter.SMOOTHING_RADIUS_MIN, VSFilter.SMOOTHING_RADIUS_MAX.
  intros Hmin Hmax Heven Hfuel. unfold VSFilter.prepare_buffers.
  destruct (N.leb_spec VSFilter.SMOOTHING_RADIUS_MIN radius) as [_|Hlt];
    [|unfold VSFilter.SMOOTHING_RADIUS_MIN in Hlt; lia].
  rewrite Heven. simpl andb. cbv iota.
  rewrite !u32_small by lia.
  replace (Z.to_N (Z.of_N radius + 2)) with (radius + 2) by lia.
  replace (Z.to_N (2 * Z.of_N radius + 1)) with (2 * radius + 1) by lia.
  unfold VSFilter.reset_buffers. simpl.
  destruct (N.ltb_spec (radius + 2) (2 * radius + 1)) as [_|Hge]; [|lia].
  set (seed := SlidingBuffer.advance _ _).
  destruct (seed_trajectory_spec radius fuel seed) as (trajectory' & -> & Hwindow & Helements);
    try (unfold seed; rewrite ?elements_advance; simpl; lia).
  simpl. eexists. split; [done|]. simpl.
  rewrite Hwindow, Helements. unfold seed. rewrite elements_advance. simpl.
  split_and!; try done.
  - change (SlidingBuffer.elements (SlidingBuffer.clear _)) with 0.
    apply N.max_r. lia.
  - rewrite elements_foldl_advance;
      change (SlidingBuffer.elements (SlidingBuffer.clear _)) with 0; simpl; [|lia].
    rewrite length_fmap, length_seq. lia.
Qed.


Lemma prepare_buffers_in_step fuel (s s' : VSFilter.t Frame ObsFrame Transform Tracker) radius :
  VSFilter.SMOOTHING_RADIUS_MIN ≤ radius → radius ≤ VSFilter.SMOOTHING_RADIUS_MAX →
  radius mod 2 = 0 → (N.to_nat radius ≤ fuel)%nat →
  VSFilter.prepare_buffers fuel s radius = Some s' →
  VSFilter.in_step s'.
Proof.
  intros Hmin Hmax Heven Hfuel Hprepare.
  destruct (prepare_buffers_spec fuel s radius Hmin Hmax Heven Hfuel)
    as (s0 & Hs0 & _ & Hqw & Htw & Hq & Ht & Hkernel).
  rewrite Hprepare in Hs0. injection Hs0 as <-.
  unfold VSFilter.SMOOTHING_RADIUS_MIN in Hmin.
  unfold VSFilter.in_step. simpl. rewrite Hqw, Htw, Hq, Ht, Hkernel. lia.
Qed.

(** ** Processing frames *)

Lemma convolve_is_Some (trajectory : SlidingBuffer.t VSFilter.FrameVector) kernel :
  0 < SlidingBuffer.elements trajectory → 0 < SlidingBuffer.elements kernel →
  is_Some (VSFilter.convolve trajectory kernel).
Proof.
  unfold SlidingBuffer.elements, VSFilter.convolve.
  destruct (SlidingBuffer.items trajectory), (SlidingBuffer.items kernel);
    simpl; intros; try lia; eauto.
Qed.

Lemma process_spec s obs_frame elapsed :
  VSFilter.in_step s →
  ∃ s' handed,
    VSFilter.process s obs_frame elapsed = Some (s', handed)
    ∧ VSFilter.in_step s'
    ∧ SlidingBuffer.window (VSFilter.m_FrameQueue s')
      = SlidingBuffer.window (VSFilter.m_FrameQueue s)
    ∧ SlidingBuffer.elements (VSFilter.m_FrameQueue s')
      = N.min (SlidingBuffer.elements (VSFilter.m_FrameQueue s) + 1)
              (SlidingBuffer.window (VSFilter.m_FrameQueue s))
    ∧ SlidingBuffer.full (VSFilter.m_Trajectory s')
      = SlidingBuffer.full (VSFilter.m_FrameQueue s')
    ∧ VSFilter.stabilisation_ready s'
      = Some (SlidingBuffer.full (VSFilter.m_FrameQueue s'))
    ∧ VSFilter.hands_back s' handed.
Proof.
  intros (Hqueue & Hqle & Htle & Htpos & Htwide & Hroom & Hkernel).
  unfold VSFilter.process.
  set (buffer := VSFilter.Build_FrameBuffer _ _).
  set (tracked := track _ _).
  set (slot := VSFilter.mkFrameVector Identity tracked.2).
  destruct (advance_items (VSFilter.m_Trajectory s) slot Htle) as (kept & Hitems & Hlast);
    [lia|].
  specialize (Hlast Htwide).
  destruct (newest_is_Some (VSFilter.m_Trajectory s) Htpos) as [before Hbefore].
  assert (SlidingBuffer.previous (SlidingBuffer.advance (VSFilter.m_Trajectory s) slot)
          = Some before) as ->.
  { unfold SlidingBuffer.previous. rewrite Hitems, removelast_last, Hlast. exact Hbefore. }
  simpl.
  set (motion := VSFilter.mkFrameVector _ _).
  set (queue := SlidingBuffer.advance (VSFilter.m_FrameQueue s) buffer).
  set (trajectory := SlidingBuffer.set_newest _ motion).
  assert (SlidingBuffer.elements queue
          = N.min (SlidingBuffer.elements (VSFilter.m_FrameQueue s) + 1)
                  (SlidingBuffer.window (VSFilter.m_FrameQueue s))) as Hq
    by apply elements_advance.
  assert (SlidingBuffer.elements trajectory
          = N.min (SlidingBuffer.elements (VSFilter.m_Trajectory s) + 1)
                  (SlidingBuffer.window (VSFilter.m_Trajectory s))) as Ht.
  { unfold trajectory. rewrite elements_set_newest; rewrite elements_advance; [done|lia]. }
  assert (SlidingBuffer.window queue = SlidingBuffer.window (VSFilter.m_FrameQueue s))
    as Hqw by done.
  assert (SlidingBuffer.window trajectory = SlidingBuffer.window (VSFilter.m_Trajectory s))
    as Htw by done.
  assert (SlidingBuffer.full trajectory = SlidingBuffer.full queue) as Hfull.
  { unfold SlidingBuffer.full. rewrite Hq, Ht, Hqw, Htw.
    destruct (N.eqb_spec (N.min (SlidingBuffer.elements (VSFilter.m_Trajectory s) + 1)
                                (SlidingBuffer.window (VSFilter.m_Trajectory s)))
                         (SlidingBuffer.window (VSFilter.m_Trajectory s)));
    destruct (N.eqb_spec (N.min (SlidingBuffer.elements (VSFilter.m_FrameQueue s) + 1)
                                (SlidingBuffer.window (VSFilter.m_FrameQueue s)))
                         (SlidingBuffer.window (VSFilter.m_FrameQueue s)));
      try done; lia. }
  set (s' := VSFilter.mk _ _ _ _ _ _ _).
  assert (VSFilter.in_step s') as Hstep.
  { unfold VSFilter.in_step, s'.
    cbn [VSFilter.m_FrameQueue VSFilter.m_Trajectory VSFilter.m_Filter].
    rewrite Hq, Ht, Hqw, Htw. split_and!; try done; lia. }
  assert (VSFilter.stabilisation_ready s' = Some (SlidingBuffer.full queue)) as Hready.
  { unfold VSFilter.stabilisation_ready, s'.
    cbn [VSFilter.m_FrameQueue VSFilter.m_Trajectory].
    rewrite Hfull. by destruct (SlidingBuffer.full queue). }
  rewrite Hready. simpl.
  enough (∃ handed,
    (if SlidingBuffer.full queue
     then
       oldest ← SlidingBuffer.oldest queue;
       centre ← SlidingBuffer.centre trajectory;
       smoothed ← VSFilter.convolve trajectory (VSFilter.m_Filter s);
       cropped_warp ←
         VSFilter.enclose_crop VSFilter.max_iterations s' (VSFilter.frame oldest)
           (t_add (VSFilter.velocity centre)
              (t_sub (VSFilter.displacement smoothed) (VSFilter.displacement centre)));
       Some (s', Some (export_frame
          (if VSFilter.m_TestMode s
           then draw_test_mode (VSFilter.m_CropRegion s)
                  (warpAffine (VSFilter.frame oldest) cropped_warp
                     (frame_size (VSFilter.frame oldest))) elapsed
           else warpAffine (VSFilter.frame oldest) cropped_warp
                  (frame_size (VSFilter.frame oldest)))
          (VSFilter.output oldest)))
     else Some (s', None)) = Some (s', handed)
    ∧ VSFilter.hands_back s' handed) as (handed & Hrun & Hhands).
  { exists s', handed. split_and!;
      [exact Hrun|exact Hstep|exact Hqw|exact Hq|exact Hfull|exact Hready|exact Hhands]. }
  unfold VSFilter.hands_back, s'.
  cbn [VSFilter.m_FrameQueue VSFilter.m_Trajectory VSFilter.m_CropRegion].
  fold s'. rewrite Hfull.
  destruct (SlidingBuffer.full queue) eqn:Hqfull; simpl.
  - destruct (oldest_is_Some queue) as [oldest Holdest]; [lia|].
    destruct (centre_is_Some trajectory) as [centre Hcentre]; [lia|].
    destruct (convolve_is_Some trajectory (VSFilter.m_Filter s)) as [smoothed Hsmoothed];
      [lia|done|].
    rewrite Holdest, Hcentre. simpl. rewrite Hsmoothed. simpl.
    set (smooth_warp := t_add _ _).
    destruct (enclose_crop_total s' (VSFilter.frame oldest) smooth_warp)
      as [cropped_warp Hcrop].
    rewrite Hcrop. simpl.
    eexists. split; [done|].
    exists oldest, cropped_warp. eexists. split; [done|]. split; [|done].
    destruct (VSFilter.m_TestMode s); [right; by eexists|by left].
  - by exists None.
Qed.

Lemma feed_spec frames : ∀ s,
  VSFilter.in_step s →
  ∃ trace,
    VSFilter.feed s frames = Some trace
    ∧ length trace = length frames
    ∧ ∀ i si handed, trace !! i = Some (si, handed) →
        VSFilter.in_step si
        ∧ SlidingBuffer.window (VSFilter.m_FrameQueue si)
          = SlidingBuffer.window (VSFilter.m_FrameQueue s)
        ∧ SlidingBuffer.elements (VSFilter.m_FrameQueue si)
          = N.min (SlidingBuffer.elements (VSFilter.m_FrameQueue s) + N.of_nat i + 1)
                  (SlidingBuffer.window (VSFilter.m_FrameQueue s))
        ∧ SlidingBuffer.full (VSFilter.m_Trajectory si)
          = SlidingBuffer.full (VSFilter.m_FrameQueue si)
        ∧ VSFilter.stabilisation_ready si
          = Some (SlidingBuffer.full (VSFilter.m_FrameQueue si))
        ∧ VSFilter.hands_back si handed.
Proof.
  induction frames as [|[obs_frame elapsed] rest IH]; intros s Hstep; simpl.
  - exists []. by split_and!.
  - destruct (process_spec s obs_frame elapsed Hstep)
      as (s1 & handed1 & -> & Hstep1 & Hwindow & Helements & Hfull & Hready & Hhands).
    simpl. destruct (IH s1 Hstep1) as (trace & -> & Hlength & Htrace). simpl.
    eexists. split; [done|]. split; [simpl; by rewrite Hlength|].
    intros [|i] si handed Hi; simpl in Hi.
    + injection Hi as <- <-. split_and!; try done. rewrite Helements. lia.
    + destruct (Htrace _ _ _ Hi) as (? & Hw & He & ? & ? & ?).
      split_and!; try done; try congruence.
      rewrite He, Helements, Hwindow.
      destruct Hstep as (_ & ? & _). lia.
Qed.


(** C4: for an even radius within the bounds, [prepare_buffers] returns
    with a frame queue of [R + 2] slots, empty, and a trajectory of
    [2R + 1] slots holding [R - 1] elements; in any sequence of frames fed
    after it, [stabilisation_ready] and the fullness of either buffer are
    false after each of the first [R + 1] frames and true from frame
    [R + 2] on. *)
Theorem stabilisation_ready_at_radius_plus_two fuel s radius :
  VSFilter.SMOOTHING_RADIUS_MIN ≤ radius → radius ≤ VSFilter.SMOOTHING_RADIUS_MAX →
  radius mod 2 = 0 → (N.to_nat radius ≤ fuel)%nat →
  ∃ s0,
    VSFilter.prepare_buffers fuel s radius = Some s0
    ∧ SlidingBuffer.window_size (VSFilter.m_FrameQueue s0) = radius + 2
    ∧ SlidingBuffer.window_size (VSFilter.m_Trajectory s0) = 2 * radius + 1
    ∧ SlidingBuffer.elements (VSFilter.m_FrameQueue s0) = 0
    ∧ SlidingBuffer.elements (VSFilter.m_Trajectory s0) = radius - 1
    ∧ ∀ frames, ∃ trace,
        VSFilter.feed s0 frames = Some trace
        ∧ length trace = length frames
        ∧ ∀ i si handed, trace !! i = Some (si, handed) →
            VSFilter.stabilisation_ready si
            = Some (bool_decide (radius + 2 ≤ N.of_nat i + 1))
            ∧ SlidingBuffer.full (VSFilter.m_FrameQueue si)
              = bool_decide (radius + 2 ≤ N.of_nat i + 1)
            ∧ SlidingBuffer.full (VSFilter.m_Trajectory si)
              = bool_decide (radius + 2 ≤ N.of_nat i + 1).
Proof.
  intros Hmin Hmax Heven Hfuel.
  destruct (prepare_buffers_spec fuel s radius Hmin Hmax Heven Hfuel)
    as (s0 & Hprepare & _ & Hqw & Htw & Hq & Ht & Hkernel).
  unfold VSFilter.SMOOTHING_RADIUS_MIN in Hmin.
  exists s0. unfold SlidingBuffer.window_size. split_and!; try done.
  intros frames.
  destruct (feed_spec frames s0) as (trace & Hfeed & Hlength & Htrace).
  { by eapply (prepare_buffers_in_step fuel s s0 radius). }
  exists trace. split; [done|]. split; [done|].
  intros i si handed Hi.
  destruct (Htrace _ _ _ Hi) as (_ & Hw & He & Hfull & Hready & _).
  assert (SlidingBuffer.full (VSFilter.m_FrameQueue si)
          = bool_decide (radius + 2 ≤ N.of_nat i + 1)) as Hfilled.
  { unfold SlidingBuffer.full. rewrite Hw, He, Hq, Hqw.
    case_bool_decide; [apply N.eqb_eq|apply N.eqb_neq]; lia. }
  rewrite Hready, Hfull, Hfilled. done.
Qed.

(** The search leaves a transform that encloses the crop as it is. *)
Lemma enclose_crop_already_enclosed fuel s frame transform :
  encloses (bounds_of (frame_size frame) transform) (VSFilter.m_CropRegion s) = true →
  VSFilter.enclose_crop fuel s frame transform = Some transform.
Proof.
  intros Henclosed. unfold VSFilter.enclose_crop.
  destruct fuel; simpl; rewrite Henclosed; simpl; by rewrite ?andb_false_r.
Qed.

(** C5: when nothing encloses the crop, the search ends after 99 rounds:
    the hundredth fraction, reached by adding 1/100 in binary64, is above 1.
    What it returns is the interpolation at the 99th fraction, which is
    below 1, and not the one at 1. *)
Theorem enclose_crop_stops_short s frame transform :
  (∀ frame_bounds, encloses frame_bounds (VSFilter.m_CropRegion s) = false) →
  VSFilter.enclose_crop VSFilter.max_iterations s frame transform
  = Some (lerp transform Identity (VSFilter.fraction 98))
  ∧ VSFilter.enclose_crop 99 s frame transform
    = Some (lerp transform Identity (VSFilter.fraction 98))
  ∧ VSFilter.fraction 98 = 0x1.fae147ae147b4p-1%float
  ∧ PrimFloat.ltb (VSFilter.fraction 98) VSFilter.max_t = true
  ∧ PrimFloat.leb (VSFilter.fraction 99) VSFilter.max_t = false.
Proof.
  intros Hnever. unfold VSFilter.enclose_crop.
  rewrite !enclose_loop_never by done.
  split_and!; vm_compute; reflexivity.
Qed.

End FilterFacts.

(** * Further properties of SpatialMap *)

Section MapExtras.
Context {F : Type} `{Float32 F}.
Context (T : Type) (E : N).

Local Abbreviation map := (SpatialMap.t (F:=F) T).
Implicit Types (m : map) (key : spatial_key) (item : T).

Lemma contains_true_entry m key :
  SpatialMap.wf E m → SpatialMap.contains E m key = Some true →
  ∃ i item, SpatialMap.m_Data m !! i = Some (key, item)
            ∧ SpatialMap.fetch_data_link m key = Some (N.of_nat i).
Proof.
  intros Hwf. unfold SpatialMap.contains.
  destruct (SpatialMap.is_key_valid m key) eqn:Hvalid; [|done].
  destruct (SpatialMap.fetch_data_link m key) as [link|] eqn:Hlink; [|done]. simpl.
  unfold SpatialMap.is_data_link_empty.
  destruct (N.eqb_spec link E) as [|Hne]; [done|]. intros _.
  destruct (SpatialMap.wf_link E m Hwf _ _ Hlink Hne) as (key' & item & Hentry & Hcell).
  destruct (SpatialMap.wf_data E m Hwf _ _ _ Hentry) as [Hvalid' _].
  assert (key' = key) as ->.
  { apply (cell_inj T m); try done; by destruct Hwf. }
  exists (N.to_nat link), item. by rewrite N2Nat.id.
Qed.

Lemma entry_contains m i key item :
  SpatialMap.wf E m → SpatialMap.m_Data m !! i = Some (key, item) →
  SpatialMap.contains E m key = Some true.
Proof.
  intros Hwf Hentry.
  destruct (SpatialMap.wf_data E m Hwf _ _ _ Hentry) as [Hvalid Hlink].
  unfold SpatialMap.contains. rewrite Hvalid, Hlink. simpl.
  unfold SpatialMap.is_data_link_empty.
  destruct (N.eqb_spec (N.of_nat i) E); [|done].
  by eapply (wf_index_lt T E) in Hentry.
Qed.

Lemma contains_false_link m key :
  SpatialMap.contains E m key = Some false →
  SpatialMap.is_key_valid m key = true ∧ SpatialMap.fetch_data_link m key = Some E.
Proof.
  unfold SpatialMap.contains.
  destruct (SpatialMap.is_key_valid m key); [|done].
  destruct (SpatialMap.fetch_data_link m key) as [link|]; [|done]. simpl.
  unfold SpatialMap.is_data_link_empty.
  destruct (N.eqb_spec link E) as [->|]; by intros [=].
Qed.

Lemma place_at_empty_spec m key item :
  SpatialMap.wf E m → SpatialMap.contains E m key = Some false →
  SpatialMap.size m < E →
  ∃ m', SpatialMap.place_at E m key item = Some (m', length (SpatialMap.m_Data m))
    ∧ SpatialMap.wf E m'
    ∧ SpatialMap.m_Data m' = SpatialMap.m_Data m ++ [(key, item)]
    ∧ SpatialMap.size m' = SpatialMap.size m + 1
    ∧ SpatialMap.at_ E m' key = Some item
    ∧ ∀ key' item', SpatialMap.at_ E m key' = Some item' →
                    SpatialMap.at_ E m' key' = Some item'.
Proof.
  intros Hwf [Hvalid Hlink]%contains_false_link Hsize.
  destruct (place_at_fresh T E m key item Hwf Hvalid Hlink Hsize) as [Hplace Hwf'].
  eexists. split; [exact Hplace|]. split; [exact Hwf'|]. split_and!.
  - done.
  - unfold SpatialMap.size. simpl. rewrite length_app. simpl. lia.
  - eapply (wf_at T E); [exact Hwf'|]. simpl.
    rewrite lookup_app_r by done. by rewrite Nat.sub_diag.
  - intros key' item' [i Hentry]%(wf_at_inv T E); [|done].
    eapply (wf_at T E); [exact Hwf'|]. simpl. by apply lookup_app_l_Some.
Qed.

(** X1: [place_at] with a key whose cell is empty, on a map that satisfies
    the invariant, appends the entry at the end of the data array: the
    reference it returns is to the new last position, the size grows by one,
    [at] of the key gives the item, every entry found before is still found
    with its value, and the invariant holds again. *)
Theorem place_at_empty_cell m key item :
  SpatialMap.wf E m → SpatialMap.contains E m key = Some false →
  SpatialMap.size m < E →
  ∃ m', SpatialMap.place_at E m key item = Some (m', length (SpatialMap.m_Data m))
    ∧ SpatialMap.wf E m'
    ∧ SpatialMap.m_Data m' = SpatialMap.m_Data m ++ [(key, item)]
    ∧ SpatialMap.size m' = SpatialMap.size m + 1
    ∧ SpatialMap.at_ E m' key = Some item
    ∧ ∀ key' item', SpatialMap.at_ E m key' = Some item' →
                    SpatialMap.at_ E m' key' = Some item'.
Proof. apply place_at_empty_spec. Qed.








(** X6: [clear] gives back the invariant to any map whose link array has
    one cell per key, whatever the links and entries were before. *)
Theorem clear_restores_invariant m :
  SpatialMap.geometry_ok m → SpatialMap.wf E (SpatialMap.clear E m).
Proof.
  intros (Hw & Hh & Hcap). split; simpl; try done.
  - by rewrite length_fmap.
  - unfold SpatialMap.size. simpl. lia.
  - intros c link. rewrite list_lookup_fmap.
    destruct (SpatialMap.m_Map m !! c); simpl; [|done]. by intros [= <-].
Qed.

(** X7: on a map that satisfies the invariant, looking up agrees with
    iterating over the data array: [contains] is true of exactly the keys of
    the entries, [at] gives exactly the value stored with the key, and no
    key occurs twice. *)
Theorem lookup_agrees_with_iteration m key :
  SpatialMap.wf E m →
  (SpatialMap.contains E m key = Some true ↔ key ∈ (SpatialMap.m_Data m).*1)
  ∧ (∀ item, SpatialMap.at_ E m key = Some item ↔ (key, item) ∈ SpatialMap.m_Data m)
  ∧ NoDup (SpatialMap.m_Data m).*1.
Proof.
  intros Hwf. split_and!.
  - split.
    + intros (i & item & Hentry & _)%contains_true_entry; [|done].
      apply list_elem_of_fmap. exists (key, item). split; [done|].
      by eapply list_elem_of_lookup_2.
    + intros [[key' item] [-> [i Hentry]%list_elem_of_lookup_1]]%list_elem_of_fmap.
      by eapply entry_contains.
  - intros item. split.
    + intros [i Hentry]%(wf_at_inv T E); [|done]. by eapply list_elem_of_lookup_2.
    + intros [i Hentry]%list_elem_of_lookup_1. by eapply (wf_at T E).
  - by apply (wf_keys_NoDup T E).
Qed.



Lemma wf_size_capacity m :
  SpatialMap.wf E m → SpatialMap.size m ≤ SpatialMap.capacity m.
Proof.
  intros Hwf. unfold SpatialMap.size, SpatialMap.capacity.
  set (cells := (SpatialMap.cell m) <$> (SpatialMap.m_Data m).*1).
  assert (NoDup cells) as Hnodup.
  { apply NoDup_fmap_2_strong; [|by apply (wf_keys_NoDup T E)].
    intros key1 key2 Hin1 Hin2 Hcell.
    apply list_elem_of_fmap in Hin1 as [[k1 v1] [-> [i1 H1]%list_elem_of_lookup_1]].
    apply list_elem_of_fmap in Hin2 as [[k2 v2] [-> [i2 H2]%list_elem_of_lookup_1]].
    destruct (SpatialMap.wf_data E m Hwf _ _ _ H1) as [Hv1 _].
    destruct (SpatialMap.wf_data E m Hwf _ _ _ H2) as [Hv2 _].
    apply (cell_inj T m); try done; by destruct Hwf. }
  assert (cells ⊆+ seq 0 (length (SpatialMap.m_Map m))) as Hsub.
  { apply NoDup_submseteq; [done|]. intros c Hc.
    apply list_elem_of_fmap in Hc as [key [-> Hkey]].
    apply list_elem_of_fmap in Hkey as [[k v] [-> [i Hi]%list_elem_of_lookup_1]].
    destruct (SpatialMap.wf_data E m Hwf _ _ _ Hi) as [Hv _].
    apply elem_of_seq. split; [lia|]. simpl.
    by apply cell_in_range; [apply (wf_geometry T E)|]. }
  apply submseteq_length in Hsub.
  unfold cells in Hsub. rewrite !length_fmap, length_seq in Hsub. lia.
Qed.

(** X9: a map that satisfies the invariant never holds more entries than it
    has cells; so for a map that is not empty and whose resolution is at
    most 4 in one dimension, [distribution_quality], which is then the load
    [size / capacity], is above 0 and at most 1. *)
Theorem load_factor_of_small_grid m :
  SpatialMap.wf E m → SpatialMap.is_empty m = false →
  (width (SpatialMap.resolution m) ≤ 4 ∨ height (SpatialMap.resolution m) ≤ 4)%Z →
  SpatialMap.size m ≤ SpatialMap.capacity m
  ∧ ∃ quality,
      SpatialMap.distribution_quality m = Some quality
      ∧ quality = (SpatialMap.N_to_Q (SpatialMap.size m)
                   / SpatialMap.N_to_Q (SpatialMap.capacity m))%Q
      ∧ (0 < quality)%Q ∧ (quality <= 1)%Q.
Proof.
  intros Hwf Hne Hsmall. pose proof (wf_size_capacity m Hwf) as Hload.
  split; [done|].
  assert (0 < SpatialMap.size m) as Hsize.
  { unfold SpatialMap.is_empty in Hne. apply bool_decide_eq_false in Hne.
    unfold SpatialMap.size. destruct (SpatialMap.m_Data m); [done|simpl; lia]. }
  unfold SpatialMap.distribution_quality, SpatialMap.resolution in *. rewrite Hne.
  rewrite !to_size_t_nonneg by (by destruct Hwf).
  assert ((Z.to_N (width (SpatialMap.m_MapResolution m)) <=? SpatialMap.sectors)
          || (Z.to_N (height (SpatialMap.m_MapResolution m)) <=? SpatialMap.sectors)
          = true) as ->.
  { apply orb_true_iff. unfold SpatialMap.sectors.
    destruct Hsmall; [left|right]; apply N.leb_le; lia. }
  eexists. split; [done|]. split; [done|].
  unfold SpatialMap.N_to_Q.
  assert (0 < inject_Z (Z.of_N (SpatialMap.capacity m)))%Q as Hpos.
  { change 0%Q with (inject_Z 0). rewrite <- Zlt_Qlt. lia. }
  split.
  - apply Qlt_shift_div_l; [done|]. rewrite Qmult_0_l.
    change 0%Q with (inject_Z 0). rewrite <- Zlt_Qlt. lia.
  - apply Qle_shift_div_r; [done|]. rewrite Qmult_1_l. rewrite <- Zle_Qle. lia.
Qed.

Section Subscript.
Context {P : Type} `{Coord F P}.

(** X5: [operator[]] at a position whose key is valid, on a map that
    satisfies the invariant: if the key is contained the map is unchanged
    and the reference is to the entry of the key; if it is not, an entry
    with the default value is appended, the reference is to it, and [at] of
    the key gives the default value.  The invariant holds afterwards. *)
Theorem subscript_finds_or_inserts (default : T) m (position : Point_ P) key :
  SpatialMap.wf E m → SpatialMap.size m < E →
  SpatialMap.key_of m position = Some key →
  SpatialMap.is_key_valid m key = true →
  ∃ m' i,
    SpatialMap.subscript E default m position = Some (m', i)
    ∧ SpatialMap.wf E m'
    ∧ (∀ item, SpatialMap.at_ E m key = Some item →
         m' = m ∧ SpatialMap.m_Data m !! i = Some (key, item))
    ∧ (SpatialMap.contains E m key = Some false →
         SpatialMap.m_Data m' = SpatialMap.m_Data m ++ [(key, default)]
         ∧ i = length (SpatialMap.m_Data m)
         ∧ SpatialMap.at_ E m' key = Some default).
Proof.
  intros Hwf Hsize Hkey Hvalid.
  destruct (fetch_in_range T m key (wf_geometry T E m Hwf) Hvalid) as [link Hlink].
  assert (∃ present, SpatialMap.contains E m key = Some present) as [present Hcontains].
  { unfold SpatialMap.contains. rewrite Hvalid, Hlink. simpl. eauto. }
  unfold SpatialMap.subscript. rewrite Hkey. simpl. rewrite Hcontains. simpl.
  destruct present.
  - destruct (contains_true_entry m key Hwf Hcontains) as (i & item & Hentry & Hi).
    unfold SpatialMap.at_ref. rewrite Hcontains, Hi. simpl.
    rewrite Nat2N.id, Hentry. simpl.
    exists m, i. split_and!; try done.
    intros item' Hat. split; [done|].
    pose proof (wf_at T E m i key item Hwf Hentry) as Hfound.
    rewrite Hat in Hfound. by injection Hfound as ->.
  - rewrite emplace_at_place_at.
    destruct (place_at_empty_spec m key default Hwf Hcontains Hsize)
      as (m' & Hplace & Hwf' & Hdata & _ & Hat & _).
    rewrite Hplace. eexists _, _. split; [done|]. split; [done|]. split.
    + intros item Hitem. unfold SpatialMap.at_ in Hitem. by rewrite Hcontains in Hitem.
    + done.
Qed.

End Subscript.
End MapExtras.

(** ** Keys of positions with exact division *)



(** * Further properties of the ring buffers and the filter *)

Section BufferExtras.
Context {A : Type}.
Implicit Types (b : SlidingBuffer.t A) (a : A) (l : list A).

Lemma keep_last_app n l1 l2 :
  keep_last n (keep_last n l1 ++ l2) = keep_last n (l1 ++ l2).
Proof.
  unfold keep_last. rewrite !length_app, length_drop.
  destruct (decide (length l1 ≤ n)%nat) as [Hle|Hgt].
  - replace (length l1 - n)%nat with 0%nat by lia.
    rewrite drop_0. by rewrite Nat.sub_0_r.
  - replace (length l1 - (length l1 - n) + length l2 - n)%nat with (length l2) by lia.
    replace (length l1 + length l2 - n)%nat
      with ((length l1 - n) + length l2)%nat by lia.
    rewrite <- drop_drop. f_equal. by rewrite drop_app_le by lia.
Qed.

Lemma keep_last_short n l : (length l ≤ n)%nat → keep_last n l = l.
Proof.
  intros Hle. unfold keep_last.
  replace (length l - n)%nat with 0%nat by lia. apply drop_0.
Qed.

Lemma advance_keep_last b a :
  SlidingBuffer.items (SlidingBuffer.advance b a)
  = keep_last (N.to_nat (SlidingBuffer.window b)) (SlidingBuffer.items b ++ [a]).
Proof. done. Qed.

Lemma foldl_advance_items l : ∀ b,
  SlidingBuffer.elements b ≤ SlidingBuffer.window b →
  SlidingBuffer.window (foldl SlidingBuffer.advance b l) = SlidingBuffer.window b
  ∧ SlidingBuffer.items (foldl SlidingBuffer.advance b l)
    = keep_last (N.to_nat (SlidingBuffer.window b)) (SlidingBuffer.items b ++ l).
Proof.
  induction l as [|a l IH]; intros b Hle; simpl.
  - split; [done|]. rewrite app_nil_r, keep_last_short; [done|].
    unfold SlidingBuffer.elements in Hle. lia.
  - destruct (IH (SlidingBuffer.advance b a)) as [Hwindow Hitems].
    { rewrite elements_advance. simpl. lia. }
    split; [done|]. rewrite Hitems, advance_keep_last. simpl.
    rewrite keep_last_app. by rewrite <- app_assoc.
Qed.

Lemma head_keep_last n l :
  (0 < n ≤ length l)%nat → head (keep_last n l) = l !! (length l - n)%nat.
Proof.
  intros Hn. unfold keep_last. rewrite head_lookup, lookup_drop. f_equal. lia.
Qed.

End BufferExtras.

Section FilterExtras.
Context {Frame ObsFrame Transform BoundingBox Tracker : Type}.
Context `{Vision Frame ObsFrame Transform BoundingBox Tracker}.

Local Abbreviation filter := (VSFilter.t Frame ObsFrame Transform Tracker).
Implicit Types (s : filter).

(** ** The result of the crop search *)

Lemma last_fraction_above : PrimFloat.leb (VSFilter.fraction 99) VSFilter.max_t = false.
Proof. vm_compute. reflexivity. Qed.

Lemma enclose_loop_unfold fuel crop transform t reduced frame_bounds :
  VSFilter.enclose_loop fuel crop transform t reduced frame_bounds
  = if PrimFloat.leb t VSFilter.max_t && negb (encloses frame_bounds crop) then
      match fuel with
      | O => None
      | S fuel' =>
          VSFilter.enclose_loop fuel' crop transform (t + VSFilter.step)%float
            (lerp transform Identity t)
            (bounds_transform frame_bounds (lerp transform Identity t))
      end
    else Some reduced.
Proof. by destruct fuel. Qed.

Lemma enclose_loop_reduction crop transform fuel : ∀ k frame_bounds,
  (k ≤ 99)%nat → (99 ≤ fuel + k)%nat →
  ∃ n, (k ≤ n ≤ 99)%nat
    ∧ VSFilter.enclose_loop fuel crop transform (VSFilter.fraction k)
        (VSFilter.reduction transform k) frame_bounds
      = Some (VSFilter.reduction transform n)
    ∧ (encloses frame_bounds crop = true → n = k).
Proof.
  induction fuel as [|fuel IH]; intros k frame_bounds Hk Hfuel;
    rewrite enclose_loop_unfold.
  - assert (k = 99)%nat as -> by lia. exists 99%nat. split; [lia|].
    by rewrite last_fraction_above.
  - destruct (PrimFloat.leb (VSFilter.fraction k) VSFilter.max_t) eqn:Hleb;
      [|exists k; split_and!; [lia|lia|done|done]].
    destruct (encloses frame_bounds crop) eqn:Henc;
      [exists k; split_and!; [lia|lia|done|done]|].
    assert (k ≠ 99)%nat as Hne.
    { intros ->. rewrite last_fraction_above in Hleb. done. }
    destruct (IH (S k) (bounds_transform frame_bounds
                          (lerp transform Identity (VSFilter.fraction k))))
      as (n & Hn & Hrun & _); [lia|lia|].
    exists n. split; [lia|]. split; [exact Hrun|done].
Qed.

(** X11: the crop search returns for every input after at most 99 rounds:
    what it returns is the transform it was given or its interpolation
    towards the identity at one of the first 99 fractions, and it is the
    transform itself when the bounds of that transform enclose the crop. *)
Theorem enclose_crop_result s frame transform :
  ∃ n, (n ≤ 99)%nat
    ∧ VSFilter.enclose_crop VSFilter.max_iterations s frame transform
      = Some (VSFilter.reduction transform n)
    ∧ (encloses (bounds_of (frame_size frame) transform) (VSFilter.m_CropRegion s) = true →
       n = 0%nat).
Proof.
  destruct (enclose_loop_reduction (VSFilter.m_CropRegion s) transform
              VSFilter.max_iterations 0 (bounds_of (frame_size frame) transform))
    as (n & Hn & Hrun & Hstay); [lia|unfold VSFilter.max_iterations; lia|].
  exists n. split; [lia|]. split; [exact Hrun|exact Hstay].
Qed.

(** ** What a call of [process] changes *)

Lemma process_effect s obs_frame elapsed s' handed :
  VSFilter.process s obs_frame elapsed = Some (s', handed) →
  VSFilter.m_FrameQueue s'
  = SlidingBuffer.advance (VSFilter.m_FrameQueue s) (VSFilter.buffer_of obs_frame)
  ∧ SlidingBuffer.window (VSFilter.m_Trajectory s')
    = SlidingBuffer.window (VSFilter.m_Trajectory s)
  ∧ VSFilter.m_SmoothingRadius s' = VSFilter.m_SmoothingRadius s
  ∧ VSFilter.m_Filter s' = VSFilter.m_Filter s
  ∧ VSFilter.m_CropRegion s' = VSFilter.m_CropRegion s
  ∧ VSFilter.m_TestMode s' = VSFilter.m_TestMode s
  ∧ VSFilter.m_FrameTracker s'
    = (track (VSFilter.m_FrameTracker s)
             (extractChannel (import_frame obs_frame) 0)).1.
Proof.
  unfold VSFilter.process.
  destruct (SlidingBuffer.previous _) as [before|]; [|done]. simpl.
  destruct (VSFilter.stabilisation_ready _) as [[|]|]; simpl; [| |done].
  - destruct (SlidingBuffer.oldest _) as [oldest|]; [|done]. simpl.
    destruct (SlidingBuffer.centre _) as [centre|]; [|done]. simpl.
    destruct (VSFilter.convolve _ _) as [smoothed|]; [|done]. simpl.
    destruct (VSFilter.enclose_crop _ _ _ _) as [cropped_warp|]; [|done]. simpl.
    by intros [= <- _].
  - by intros [= <- _].
Qed.

Lemma process_newest s obs_frame elapsed s' handed :
  VSFilter.in_step s →
  VSFilter.process s obs_frame elapsed = Some (s', handed) →
  ∃ before,
    SlidingBuffer.newest (VSFilter.m_Trajectory s) = Some before
    ∧ SlidingBuffer.newest (VSFilter.m_Trajectory s')
      = Some (VSFilter.mkFrameVector
                (t_add (VSFilter.displacement before)
                   (track (VSFilter.m_FrameTracker s)
                          (extractChannel (import_frame obs_frame) 0)).2)
                (track (VSFilter.m_FrameTracker s)
                       (extractChannel (import_frame obs_frame) 0)).2).
Proof.
  intros (Hqueue & Hqle & Htle & Htpos & Htwide & Hroom & Hkernel).
  unfold VSFilter.process.
  set (tracked := track _ _).
  set (slot := VSFilter.mkFrameVector Identity tracked.2).
  destruct (advance_items (VSFilter.m_Trajectory s) slot Htle) as (kept & Hitems & Hlast);
    [lia|].
  specialize (Hlast Htwide).
  destruct (newest_is_Some (VSFilter.m_Trajectory s) Htpos) as [before Hbefore].
  assert (SlidingBuffer.previous (SlidingBuffer.advance (VSFilter.m_Trajectory s) slot)
          = Some before) as ->.
  { unfold SlidingBuffer.previous. rewrite Hitems, removelast_last, Hlast. exact Hbefore. }
  simpl. intros Hrun. exists before. split; [done|].
  assert (SlidingBuffer.newest (VSFilter.m_Trajectory s')
          = SlidingBuffer.newest
              (SlidingBuffer.set_newest
                 (SlidingBuffer.advance (VSFilter.m_Trajectory s) slot)
                 (VSFilter.mkFrameVector
                    (t_add (VSFilter.displacement before) tracked.2) tracked.2))) as ->.
  { destruct (VSFilter.stabilisation_ready _) as [[|]|]; simpl in Hrun; [| |done].
    - destruct (SlidingBuffer.oldest _) as [oldest|]; [|done]. simpl in Hrun.
      destruct (SlidingBuffer.centre _) as [centre|]; [|done]. simpl in Hrun.
      destruct (VSFilter.convolve _ _) as [smoothed|]; [|done]. simpl in Hrun.
      destruct (VSFilter.enclose_crop _ _ _ _) as [cropped_warp|]; [|done].
      simpl in Hrun. by injection Hrun as <- _.
    - by injection Hrun as <- _. }
  unfold SlidingBuffer.newest, SlidingBuffer.set_newest. simpl. apply last_snoc.
Qed.

(** X16: a call of [process] on a filter whose buffers are in step adds
    to the trajectory the tracked velocity of the frame, with the
    displacement of the element before it plus that velocity, and keeps the
    tracker that [track] leaves. *)
Theorem process_accumulates_displacement s obs_frame elapsed s' handed :
  VSFilter.in_step s →
  VSFilter.process s obs_frame elapsed = Some (s', handed) →
  ∃ before,
    SlidingBuffer.newest (VSFilter.m_Trajectory s) = Some before
    ∧ SlidingBuffer.newest (VSFilter.m_Trajectory s')
      = Some (VSFilter.mkFrameVector
                (t_add (VSFilter.displacement before)
                   (track (VSFilter.m_FrameTracker s)
                          (extractChannel (import_frame obs_frame) 0)).2)
                (track (VSFilter.m_FrameTracker s)
                       (extractChannel (import_frame obs_frame) 0)).2)
    ∧ VSFilter.m_FrameTracker s'
      = (track (VSFilter.m_FrameTracker s)
               (extractChannel (import_frame obs_frame) 0)).1.
Proof.
  intros Hstep Hrun.
  destruct (process_newest s obs_frame elapsed s' handed Hstep Hrun)
    as (before & Hbefore & Hnewest).
  exists before. split_and!; try done. by eapply process_effect.
Qed.

(** ** The frames in the queue *)

Lemma feed_queue frames : ∀ s trace,
  VSFilter.feed s frames = Some trace →
  ∀ i si handed, trace !! i = Some (si, handed) →
    VSFilter.m_FrameQueue si
    = foldl SlidingBuffer.advance (VSFilter.m_FrameQueue s)
        ((λ fed, VSFilter.buffer_of fed.1) <$> take (S i) frames)
    ∧ VSFilter.m_CropRegion si = VSFilter.m_CropRegion s.
Proof.
  induction frames as [|[obs_frame elapsed] rest IH]; intros s trace; simpl.
  - intros [= <-] i si handed Hi. by rewrite lookup_nil in Hi.
  - destruct (VSFilter.process s obs_frame elapsed) as [[s1 handed1]|] eqn:Hrun; [|done].
    simpl. destruct (VSFilter.feed s1 rest) as [trace1|] eqn:Hrest; [|done]. simpl.
    intros [= <-] [|i] si handed Hi; simpl in Hi.
    + injection Hi as <- <-. rewrite take_0. simpl.
      apply process_effect in Hrun. by destruct Hrun as (-> & _ & _ & _ & -> & _).
    + destruct (IH _ _ Hrest _ _ _ Hi) as [-> ->].
      apply process_effect in Hrun. by destruct Hrun as (-> & _ & _ & _ & -> & _).
Qed.

(** X12: after [prepare_buffers] with radius [R], the frames come back in
    the order they went in, [R + 1] calls late: the first [R + 1] calls of
    [process] hand nothing back, and call [i] after them hands back the OBS
    frame received at call [i - (R + 1)], holding the warp of its own
    image. *)
Theorem process_constant_delay fuel s radius frames :
  VSFilter.SMOOTHING_RADIUS_MIN ≤ radius → radius ≤ VSFilter.SMOOTHING_RADIUS_MAX →
  radius mod 2 = 0 → (N.to_nat radius ≤ fuel)%nat →
  ∃ s0 trace,
    VSFilter.prepare_buffers fuel s radius = Some s0
    ∧ VSFilter.feed s0 frames = Some trace
    ∧ ∀ i si handed, trace !! i = Some (si, handed) →
        ((i < N.to_nat radius + 1)%nat → handed = None)
        ∧ ((N.to_nat radius + 1 ≤ i)%nat →
           ∃ obs_frame elapsed warp shown,
             frames !! (i - (N.to_nat radius + 1))%nat = Some (obs_frame, elapsed)
             ∧ (shown = warpAffine (import_frame obs_frame) warp
                          (frame_size (import_frame obs_frame))
                ∨ ∃ elapsed',
                    shown = draw_test_mode (VSFilter.m_CropRegion s)
                              (warpAffine (import_frame obs_frame) warp
                                 (frame_size (import_frame obs_frame))) elapsed')
             ∧ handed = Some (export_frame shown obs_frame)).
Proof.
  intros Hmin Hmax Heven Hfuel.
  destruct (prepare_buffers_spec fuel s radius Hmin Hmax Heven Hfuel)
    as (s0 & Hprepare & _ & Hqw & Htw & Hq & Ht & Hkernel).
  pose proof (prepare_buffers_in_step fuel s s0 radius Hmin Hmax Heven Hfuel Hprepare)
    as Hstep.
  destruct (feed_spec frames s0 Hstep) as (trace & Hfeed & Hlength & Htrace).
  exists s0, trace. split; [done|]. split; [done|].
  intros i si handed Hi.
  destruct (Htrace _ _ _ Hi) as (_ & Hw & He & Hfull & _ & Hhands).
  destruct (feed_queue frames s0 trace Hfeed _ _ _ Hi) as [Hitems Hcrop].
  assert (VSFilter.m_CropRegion s0 = VSFilter.m_CropRegion s) as Hcrop0.
  { revert Hprepare. unfold VSFilter.prepare_buffers, VSFilter.reset_buffers.
    destruct (_ && _); [|done]. simpl. destruct (_ <? _); [|done].
    destruct (VSFilter.seed_trajectory _ _ _); [|done]. simpl. by intros [= <-]. }
  assert (SlidingBuffer.items (VSFilter.m_FrameQueue s0) = []) as Hempty.
  { apply nil_length_inv. unfold SlidingBuffer.elements in Hq. lia. }
  assert (i < length frames)%nat as Hi_lt.
  { rewrite <- Hlength. by eapply lookup_lt_Some. }
  unfold VSFilter.hands_back in Hhands. rewrite Hfull in Hhands.
  assert (SlidingBuffer.full (VSFilter.m_FrameQueue si)
          = bool_decide (N.to_nat radius + 1 ≤ i)%nat) as Hfilled.
  { unfold SlidingBuffer.full. rewrite Hw, He, Hq, Hqw.
    case_bool_decide; [apply N.eqb_eq|apply N.eqb_neq]; lia. }
  rewrite Hfilled in Hhands. split.
  - intros Hearly. by rewrite bool_decide_false in Hhands by lia.
  - intros Hlate. rewrite bool_decide_true in Hhands by done. simpl in Hhands.
    destruct Hhands as (oldest & warp & shown & Holdest & Hshown & ->).
    destruct (foldl_advance_items
                ((λ fed : ObsFrame * N, VSFilter.buffer_of fed.1) <$> take (S i) frames)
                (VSFilter.m_FrameQueue s0)) as [_ Hkept]; [lia|].
    rewrite <- Hitems, Hempty, Hqw in Hkept. simpl in Hkept.
    unfold SlidingBuffer.oldest in Holdest. rewrite Hkept in Holdest.
    rewrite head_keep_last in Holdest
      by (rewrite length_fmap, length_take; lia).
    rewrite length_fmap, length_take, list_lookup_fmap in Holdest.
    rewrite lookup_take_lt in Holdest by lia.
    replace (S i `min` length frames - N.to_nat (radius + 2))%nat
      with (i - (N.to_nat radius + 1))%nat in Holdest by lia.
    destruct (frames !! (i - (N.to_nat radius + 1))%nat) as [[obs_frame elapsed]|];
      [|done].
    simpl in Holdest. injection Holdest as <-.
    exists obs_frame, elapsed, warp, shown. split; [done|]. split; [|done].
    rewrite <- Hcrop0, <- Hcrop. exact Hshown.
Qed.

(** ** Configured filters *)

Lemma in_step_ready s :
  VSFilter.in_step s →
  VSFilter.stabilisation_ready s = Some (SlidingBuffer.full (VSFilter.m_FrameQueue s))
  ∧ (SlidingBuffer.full (VSFilter.m_FrameQueue s) = true →
     is_Some (SlidingBuffer.oldest (VSFilter.m_FrameQueue s))).
Proof.
  intros (Hqueue & Hqle & Htle & Htpos & Htwide & Hroom & Hkernel).
  assert (SlidingBuffer.full (VSFilter.m_Trajectory s)
          = SlidingBuffer.full (VSFilter.m_FrameQueue s)) as Hfull.
  { unfold SlidingBuffer.full.
    destruct (N.eqb_spec (SlidingBuffer.elements (VSFilter.m_Trajectory s))
                         (SlidingBuffer.window (VSFilter.m_Trajectory s)));
    destruct (N.eqb_spec (SlidingBuffer.elements (VSFilter.m_FrameQueue s))
                         (SlidingBuffer.window (VSFilter.m_FrameQueue s)));
      try done; lia. }
  split.
  - unfold VSFilter.stabilisation_ready. rewrite Hfull.
    by destruct (SlidingBuffer.full (VSFilter.m_FrameQueue s)).
  - unfold SlidingBuffer.full. intros Heq%N.eqb_eq. apply oldest_is_Some. lia.
Qed.

Lemma prepare_buffers_configured fuel s s' radius :
  VSFilter.SMOOTHING_RADIUS_MIN ≤ radius → radius ≤ VSFilter.SMOOTHING_RADIUS_MAX →
  radius mod 2 = 0 → (N.to_nat radius ≤ fuel)%nat →
  VSFilter.prepare_buffers fuel s radius = Some s' →
  VSFilter.configured s'.
Proof.
  intros Hmin Hmax Heven Hfuel Hprepare.
  destruct (prepare_buffers_spec fuel s radius Hmin Hmax Heven Hfuel)
    as (s0 & Hs0 & Hradius & Hqw & Htw & Hq & Ht & Hkernel).
  rewrite Hprepare in Hs0. injection Hs0 as <-.
  unfold VSFilter.configured. rewrite Hradius, Hqw, Htw, Hkernel.
  unfold VSFilter.SMOOTHING_RADIUS_MIN in Hmin. split_and!; try done. lia.
Qed.

Lemma process_keeps_configured s obs_frame elapsed s' handed :
  VSFilter.configured s →
  VSFilter.process s obs_frame elapsed = Some (s', handed) →
  VSFilter.configured s'.
Proof.
  intros Hconfigured Hrun.
  destruct (process_effect s obs_frame elapsed s' handed Hrun)
    as (Hqueue & Htw & Hradius & Hfilter & _).
  unfold VSFilter.configured. rewrite Hqueue, Htw, Hradius, Hfilter. exact Hconfigured.
Qed.

Lemma reset_buffers_spec fuel s :
  VSFilter.configured s → (N.to_nat (VSFilter.m_SmoothingRadius s) ≤ fuel)%nat →
  ∃ trajectory,
    VSFilter.reset_buffers fuel s
    = Some (VSFilter.with_buffers s (SlidingBuffer.clear (VSFilter.m_FrameQueue s))
              trajectory)
    ∧ SlidingBuffer.window trajectory = SlidingBuffer.window (VSFilter.m_Trajectory s)
    ∧ SlidingBuffer.elements trajectory = VSFilter.m_SmoothingRadius s - 1.
Proof.
  unfold VSFilter.configured, VSFilter.SMOOTHING_RADIUS_MIN, VSFilter.SMOOTHING_RADIUS_MAX.
  intros ([Hmin Hmax] & Heven & Hqw & Htw & Hkernel) Hfuel.
  unfold VSFilter.reset_buffers, SlidingBuffer.window_size. rewrite Hqw, Htw.
  destruct (N.ltb_spec (VSFilter.m_SmoothingRadius s + 2)
                       (2 * VSFilter.m_SmoothingRadius s + 1)) as [_|]; [|lia].
  set (seed := SlidingBuffer.advance _ _).
  assert (SlidingBuffer.elements seed = 1) as Hseed.
  { unfold seed. rewrite elements_advance. simpl. rewrite Htw.
    change (SlidingBuffer.elements (SlidingBuffer.clear _)) with 0. lia. }
  destruct (seed_trajectory_spec (VSFilter.m_SmoothingRadius s) fuel seed)
    as (trajectory & -> & Hwindow & Helements);
    try (rewrite ?Hseed; unfold seed; simpl; rewrite ?Htw; lia).
  simpl. exists trajectory. split; [done|]. split; [by rewrite Hwindow|].
  rewrite Helements, Hseed. apply N.max_r. lia.
Qed.

(** X13: [reset] on a filter whose buffers have the sizes of its radius
    [R] empties the frame queue, leaves [R - 1] elements in the trajectory,
    keeps the kernel and resets the tracker; the buffers are in step again,
    and the next [R + 1] calls of [process] hand nothing back. *)
Theorem reset_withholds_output_again fuel reset_tracker s frames :
  VSFilter.configured s → (N.to_nat (VSFilter.m_SmoothingRadius s) ≤ fuel)%nat →
  ∃ s', VSFilter.reset fuel reset_tracker s = Some s'
    ∧ VSFilter.configured s' ∧ VSFilter.in_step s'
    ∧ SlidingBuffer.elements (VSFilter.m_FrameQueue s') = 0
    ∧ SlidingBuffer.elements (VSFilter.m_Trajectory s') = VSFilter.m_SmoothingRadius s - 1
    ∧ VSFilter.m_Filter s' = VSFilter.m_Filter s
    ∧ VSFilter.m_FrameTracker s' = reset_tracker (VSFilter.m_FrameTracker s)
    ∧ ∃ trace,
        VSFilter.feed s' frames = Some trace
        ∧ ∀ i si handed, trace !! i = Some (si, handed) →
            N.of_nat i < VSFilter.m_SmoothingRadius s + 1 → handed = None.
Proof.
  intros Hconfigured Hfuel.
  destruct (reset_buffers_spec fuel s Hconfigured Hfuel)
    as (trajectory & Hreset & Hwindow & Helements).
  unfold VSFilter.reset. rewrite Hreset. simpl.
  set (s' := VSFilter.mk _ _ _ _ _ _ _).
  pose proof Hconfigured as ([Hmin Hmax] & Heven & Hqw & Htw & Hkernel).
  unfold VSFilter.SMOOTHING_RADIUS_MIN in Hmin.
  assert (VSFilter.in_step s') as Hstep.
  { unfold VSFilter.in_step, s'. simpl. rewrite Hwindow, Helements, Hqw, Htw.
    change (SlidingBuffer.elements (SlidingBuffer.clear _)) with 0. lia. }
  exists s'. split; [done|]. split_and!; try done.
  - unfold VSFilter.configured, s'. simpl. rewrite Hwindow. exact Hconfigured.
  - destruct (feed_spec frames s' Hstep) as (trace & Hfeed & _ & Htrace).
    exists trace. split; [done|]. intros i si handed Hi Hearly.
    destruct (Htrace _ _ _ Hi) as (_ & Hw & He & Hfull & _ & Hhands).
    unfold VSFilter.hands_back in Hhands. rewrite Hfull in Hhands.
    assert (SlidingBuffer.full (VSFilter.m_FrameQueue si) = false) as Hnot.
    { unfold SlidingBuffer.full. rewrite Hw, He. apply N.eqb_neq.
      unfold s'. simpl. rewrite Hqw.
      change (SlidingBuffer.elements (SlidingBuffer.clear _)) with 0. lia. }
    by rewrite Hnot in Hhands.
Qed.

(** ** The crop region of [tick] *)

Lemma to_i32_small z : (0 ≤ z < 2 ^ 31)%Z → VSFilter.to_i32 (VSFilter.u32 z) = z.
Proof.
  intros Hz. rewrite u32_small by lia. unfold VSFilter.to_i32.
  destruct (N.ltb_spec (Z.to_N z) (2 ^ 31)); lia.
Qed.

(** X14: [tick] changes nothing while the buffers are not full.  When they
    are, and the two crop amounts do not exceed the size of the oldest
    frame, the crop region it sets lies inside that frame, with the frame
    size less the crop amount as its size, the output size is the frame
    size in test mode and the crop size otherwise, and the buffers are not
    touched. *)
Theorem tick_crops_inside_frame (crop_of : Z → N) s (output_size : Size) :
  VSFilter.in_step s →
  (SlidingBuffer.full (VSFilter.m_FrameQueue s) = false →
   VSFilter.tick crop_of s output_size = Some (s, output_size))
  ∧ (∀ oldest,
       SlidingBuffer.full (VSFilter.m_FrameQueue s) = true →
       SlidingBuffer.oldest (VSFilter.m_FrameQueue s) = Some oldest →
       (width (frame_size (VSFilter.frame oldest)) < 2 ^ 31)%Z →
       (height (frame_size (VSFilter.frame oldest)) < 2 ^ 31)%Z →
       (Z.of_N (crop_of (width (frame_size (VSFilter.frame oldest))))
        ≤ width (frame_size (VSFilter.frame oldest)))%Z →
       (Z.of_N (crop_of (height (frame_size (VSFilter.frame oldest))))
        ≤ height (frame_size (VSFilter.frame oldest)))%Z →
       ∃ s' shown,
         VSFilter.tick crop_of s output_size = Some (s', shown)
         ∧ (0 ≤ rect_x (VSFilter.m_CropRegion s'))%Z
         ∧ (0 ≤ rect_y (VSFilter.m_CropRegion s'))%Z
         ∧ (rect_width (VSFilter.m_CropRegion s')
            = width (frame_size (VSFilter.frame oldest))
              - Z.of_N (crop_of (width (frame_size (VSFilter.frame oldest)))))%Z
         ∧ (rect_height (VSFilter.m_CropRegion s')
            = height (frame_size (VSFilter.frame oldest))
              - Z.of_N (crop_of (height (frame_size (VSFilter.frame oldest)))))%Z
         ∧ (rect_x (VSFilter.m_CropRegion s') + rect_width (VSFilter.m_CropRegion s')
            ≤ width (frame_size (VSFilter.frame oldest)))%Z
         ∧ (rect_y (VSFilter.m_CropRegion s') + rect_height (VSFilter.m_CropRegion s')
            ≤ height (frame_size (VSFilter.frame oldest)))%Z
         ∧ shown = (if VSFilter.m_TestMode s
                    then frame_size (VSFilter.frame oldest)
                    else rect_size (VSFilter.m_CropRegion s'))
         ∧ VSFilter.m_FrameQueue s' = VSFilter.m_FrameQueue s
         ∧ VSFilter.m_Trajectory s' = VSFilter.m_Trajectory s).
Proof.
  intros Hstep. destruct (in_step_ready s Hstep) as [Hready _].
  unfold VSFilter.tick. rewrite Hready. split.
  - by intros ->.
  - intros oldest -> Holdest Hw Hh Hcw Hch. simpl. rewrite Holdest. simpl.
    eexists _, _. split; [done|]. simpl.
    rewrite !to_i32_small by lia.
    pose proof (N.Div0.div_le_upper_bound
                  (crop_of (width (frame_size (VSFilter.frame oldest)))) 2
                  (crop_of (width (frame_size (VSFilter.frame oldest))))) as Hx.
    pose proof (N.Div0.div_le_upper_bound
                  (crop_of (height (frame_size (VSFilter.frame oldest)))) 2
                  (crop_of (height (frame_size (VSFilter.frame oldest))))) as Hy.
    split_and!; try done; try apply N2Z.is_nonneg; lia.
Qed.

(** ** What [prepare_buffers] leaves *)

(** X15: [prepare_buffers] with an even radius within bounds empties the
    frame queue and loads the whole Gaussian kernel of [2R + 1] values into
    the filter, in order; it records the radius and leaves the test mode,
    the crop region and the tracker as they were. *)
Theorem prepare_buffers_loads_kernel fuel s radius :
  VSFilter.SMOOTHING_RADIUS_MIN ≤ radius → radius ≤ VSFilter.SMOOTHING_RADIUS_MAX →
  radius mod 2 = 0 → (N.to_nat radius ≤ fuel)%nat →
  ∃ s', VSFilter.prepare_buffers fuel s radius = Some s'
    ∧ SlidingBuffer.items (VSFilter.m_FrameQueue s') = []
    ∧ SlidingBuffer.items (VSFilter.m_Filter s')
      = getGaussianKernel (2 * radius + 1)
          (VSFilter.N_to_float (2 * radius + 1) / 6)%float
        <$> seq 0 (N.to_nat (2 * radius + 1))
    ∧ SlidingBuffer.window_size (VSFilter.m_Filter s') = 2 * radius + 1
    ∧ VSFilter.m_SmoothingRadius s' = radius
    ∧ VSFilter.m_TestMode s' = VSFilter.m_TestMode s
    ∧ VSFilter.m_CropRegion s' = VSFilter.m_CropRegion s
    ∧ VSFilter.m_FrameTracker s' = VSFilter.m_FrameTracker s.
Proof.
  intros Hmin Hmax Heven Hfuel.
  destruct (prepare_buffers_spec fuel s radius Hmin Hmax Heven Hfuel)
    as (s' & Hprepare & _). exists s'. split; [done|].
  revert Hprepare. unfold VSFilter.prepare_buffers, VSFilter.reset_buffers.
  unfold VSFilter.SMOOTHING_RADIUS_MIN, VSFilter.SMOOTHING_RADIUS_MAX in *.
  destruct (_ && _); [|done]. simpl. destruct (_ <? _); [|done].
  destruct (VSFilter.seed_trajectory _ _ _); [|done]. simpl. intros [= <-]. simpl.
  rewrite !u32_small by lia.
  replace (Z.to_N (2 * Z.of_N radius + 1)) with (2 * radius + 1) by lia.
  destruct (foldl_advance_items
              (getGaussianKernel (2 * radius + 1)
                 (VSFilter.N_to_float (2 * radius + 1) / 6)%float
               <$> seq 0 (N.to_nat (2 * radius + 1)))
              (SlidingBuffer.clear
                 (SlidingBuffer.resize (2 * radius + 1) (VSFilter.m_Filter s))))
    as [Hwindow Hitems].
  { change (SlidingBuffer.elements (SlidingBuffer.clear _)) with 0. lia. }
  split_and!; try done.
  rewrite Hitems. simpl. apply keep_last_short.
  rewrite length_fmap, length_seq. lia.
Qed.

End FilterExtras.

(** * The definitions on concrete inputs *)

Module ExampleFacts.
Import Examples.

Lemma grid2_built :
  (m0 ← SpatialMap.rescale size_max blank (mkSize 2 2)%Z region;
   r1 ← SpatialMap.place_at size_max m0 k00 10%nat;
   SpatialMap.place_at size_max r1.1 k10 20%nat) = Some (grid2, 1%nat).
Proof. reflexivity. Qed.

Lemma grid0_wf : SpatialMap.wf size_max grid0.
Proof. by apply (rescale_fresh_wf nat size_max (mkSize 2 2)%Z region). Qed.

Lemma grid1_wf : SpatialMap.wf size_max grid1.
Proof. by apply (place_at_fresh nat size_max grid0 k00 10%nat grid0_wf). Qed.

Lemma grid2_wf : SpatialMap.wf size_max grid2.
Proof. by apply (place_at_fresh nat size_max grid1 k10 20%nat grid1_wf). Qed.

(** C1: on the map that holds 10 at (0,0) and 20 at (1,0), [place_at] (and
    [emplace_at]) with the key (0,0) and 11 puts a new entry before the old
    one: the size goes from 2 to 3, the entry of (1,0) moves from position 1
    to 2 while its link stays 1, and [at] of (1,0) then gives 10. *)
Theorem place_at_occupied_inserts :
  SpatialMap.at_ size_max grid2 k00 = Some 10%nat
  ∧ SpatialMap.size grid2 = 2
  ∧ ∃ m', SpatialMap.place_at size_max grid2 k00 11%nat = Some (m', 0%nat)
      ∧ SpatialMap.emplace_at size_max (λ n, n) grid2 k00 11%nat = Some (m', 0%nat)
      ∧ SpatialMap.size m' = 3
      ∧ SpatialMap.m_Data m' = [(k00, 11%nat); (k00, 10%nat); (k10, 20%nat)]
      ∧ SpatialMap.m_Map m' = SpatialMap.m_Map grid2
      ∧ SpatialMap.at_ size_max m' k00 = Some 11%nat
      ∧ SpatialMap.at_ size_max grid2 k10 = Some 20%nat
      ∧ SpatialMap.at_ size_max m' k10 = Some 10%nat.
Proof. split_and!; try reflexivity. eexists. split_and!; reflexivity. Qed.

(** C2: on the same map, [remove] of (0,0), which is not the last entry,
    moves the entry of (1,0) to position 0 but leaves its link at 1: the
    size is 1 and (0,0) is gone, yet [at] of (1,0) reads past the end of
    the data array, and the invariant of the two arrays is lost. *)
Theorem remove_leaves_stale_link :
  SpatialMap.wf size_max grid2
  ∧ SpatialMap.at_ size_max grid2 k10 = Some 20%nat
  ∧ ∃ m', SpatialMap.remove size_max grid2 k00 = Some m'
      ∧ SpatialMap.size m' = 1
      ∧ SpatialMap.contains size_max m' k00 = Some false
      ∧ SpatialMap.m_Data m' = [(k10, 20%nat)]
      ∧ SpatialMap.fetch_data_link m' k10 = Some 1
      ∧ SpatialMap.contains size_max m' k10 = Some true
      ∧ SpatialMap.at_ size_max m' k10 = None
      ∧ ¬ SpatialMap.wf size_max m'.
Proof.
  split; [exact grid2_wf|]. split; [reflexivity|].
  eexists. split; [reflexivity|]. split_and!; try reflexivity.
  intros Hwf.
  destruct (SpatialMap.wf_link size_max _ Hwf 1%nat 1) as (key & item & Hentry & _);
    [reflexivity|done|].
  discriminate Hentry.
Qed.

(** *** The theorems at concrete inputs *)


Lemma rescale_same_geometry_witness :
  SpatialMap.rescale size_max grid2 (mkSize 2 2)%Z region = Some grid2
  ∧ SpatialMap.rescale size_max grid0 (mkSize 2 2)%Z region = Some grid0.
Proof.
  split.
  - apply (proj1 (rescale_same_geometry nat size_max grid2)). reflexivity.
  - apply (proj2 (rescale_same_geometry nat size_max blank) (mkSize 2 2)%Z region grid0).
    reflexivity.
Defined.

Lemma clear_empties_witness :
  SpatialMap.geometry_ok grid2
  ∧ SpatialMap.contains size_max (SpatialMap.clear size_max grid2) k10 = Some false.
Proof.
  assert (SpatialMap.geometry_ok grid2) as Hgeometry.
  { unfold SpatialMap.geometry_ok. simpl. split_and!; [lia|lia|reflexivity]. }
  split; [exact Hgeometry|].
  apply (proj1 (proj2 (proj2 (proj2 (clear_empties nat size_max grid2))))).
  - exact Hgeometry.
  - reflexivity.
Defined.



Lemma stabilisation_ready_at_radius_plus_two_witness :
  ∃ s0,
    VSFilter.prepare_buffers 30 (idle 90) 2 = Some s0
    ∧ SlidingBuffer.window_size (VSFilter.m_FrameQueue s0) = 2 + 2
    ∧ SlidingBuffer.window_size (VSFilter.m_Trajectory s0) = 2 * 2 + 1
    ∧ SlidingBuffer.elements (VSFilter.m_FrameQueue s0) = 0
    ∧ SlidingBuffer.elements (VSFilter.m_Trajectory s0) = 2 - 1
    ∧ ∀ frames, ∃ trace,
        VSFilter.feed s0 frames = Some trace
        ∧ length trace = length frames
        ∧ ∀ i si handed, trace !! i = Some (si, handed) →
            VSFilter.stabilisation_ready si = Some (bool_decide (2 + 2 ≤ N.of_nat i + 1))
            ∧ SlidingBuffer.full (VSFilter.m_FrameQueue si)
              = bool_decide (2 + 2 ≤ N.of_nat i + 1)
            ∧ SlidingBuffer.full (VSFilter.m_Trajectory si)
              = bool_decide (2 + 2 ≤ N.of_nat i + 1).
Proof.
  apply (stabilisation_ready_at_radius_plus_two 30 (idle 90) 2).
  - unfold VSFilter.SMOOTHING_RADIUS_MIN. lia.
  - unfold VSFilter.SMOOTHING_RADIUS_MAX. lia.
  - reflexivity.
  - simpl. lia.
Defined.

Lemma prepared_built : VSFilter.prepare_buffers 30 (idle 90) 2 = Some prepared.
Proof. vm_compute. reflexivity. Qed.

Lemma prepared_in_step : VSFilter.in_step prepared.
Proof. unfold VSFilter.in_step. simpl. split_and!; try reflexivity; done. Qed.


Lemma enclose_crop_stops_short_witness :
  (∀ shift, encloses shift (VSFilter.m_CropRegion (idle 200)) = false)
  ∧ VSFilter.enclose_crop VSFilter.max_iterations (idle 200) 0%nat 1000%float
    = Some (lerp 1000%float Identity (VSFilter.fraction 98)).
Proof.
  split; [intros shift; reflexivity|].
  apply (enclose_crop_stops_short (idle 200) 0%nat 1000%float).
  intros shift. reflexivity.
Defined.

(** A shift of 1000 pixels with a crop 90 pixels wide, which the frame at
    rest encloses: the search hands back a shift of about 10 pixels. *)
Lemma enclose_crop_shifted_frame :
  encloses (Identity : float) (VSFilter.m_CropRegion (idle 90)) = true
  ∧ ∃ shift, VSFilter.enclose_crop VSFilter.max_iterations (idle 90) 0%nat 1000%float
             = Some shift
      ∧ PrimFloat.ltb 9.5 shift = true
      ∧ encloses shift (VSFilter.m_CropRegion (idle 90)) = false.
Proof. split; [reflexivity|]. eexists. split_and!; vm_compute; reflexivity. Qed.

End ExampleFacts.

(** * The further properties on concrete inputs *)

Module ExtraFacts.
Import Examples ExampleFacts.

Lemma stale_geometry : SpatialMap.geometry_ok stale.
Proof. unfold SpatialMap.geometry_ok. simpl. split_and!; [lia|lia|reflexivity]. Qed.

Lemma filled_in_step : VSFilter.in_step filled.
Proof. unfold VSFilter.in_step. simpl. split_and!; try reflexivity; done. Qed.

Lemma place_at_empty_cell_witness :
  ∃ m', SpatialMap.place_at size_max grid1 k10 20%nat = Some (m', 1%nat)
    ∧ SpatialMap.at_ size_max m' k10 = Some 20%nat
    ∧ SpatialMap.at_ size_max m' k00 = Some 10%nat.
Proof.
  destruct (place_at_empty_cell nat size_max grid1 k10 20%nat)
    as (m' & Hplace & _ & _ & _ & Hat & Hkept).
  - exact grid1_wf.
  - reflexivity.
  - reflexivity.
  - exists m'. split; [exact Hplace|]. split; [exact Hat|]. apply Hkept. reflexivity.
Defined.




Lemma subscript_finds_or_inserts_witness :
  ∃ m' i, SpatialMap.subscript size_max 0%nat grid2 (mkPoint 3 3)%Z = Some (m', i)
    ∧ SpatialMap.wf size_max m'
    ∧ SpatialMap.at_ size_max m' (mkPoint 1 1) = Some 0%nat.
Proof.
  destruct (subscript_finds_or_inserts nat size_max 0%nat grid2 (mkPoint 3 3)%Z (mkPoint 1 1))
    as (m' & i & Hrun & Hwf & _ & Hnew).
  - exact grid2_wf.
  - reflexivity.
  - reflexivity.
  - reflexivity.
  - exists m', i. split; [exact Hrun|]. split; [exact Hwf|]. apply Hnew. reflexivity.
Defined.

Lemma clear_restores_invariant_witness :
  SpatialMap.geometry_ok stale
  ∧ SpatialMap.wf size_max (SpatialMap.clear size_max stale).
Proof.
  split; [exact stale_geometry|].
  apply (clear_restores_invariant nat size_max stale). exact stale_geometry.
Defined.

Lemma lookup_agrees_with_iteration_witness :
  SpatialMap.contains size_max grid2 k00 = Some true
  ∧ k00 ∈ (SpatialMap.m_Data grid2).*1.
Proof.
  split; [reflexivity|].
  apply (proj1 (lookup_agrees_with_iteration nat size_max grid2 k00 grid2_wf)).
  reflexivity.
Defined.


Lemma load_factor_of_small_grid_witness :
  SpatialMap.size grid2 ≤ SpatialMap.capacity grid2
  ∧ SpatialMap.distribution_quality grid2 = Some (2 / 4)%Q.
Proof.
  destruct (load_factor_of_small_grid nat size_max grid2) as [Hload _].
  - exact grid2_wf.
  - reflexivity.
  - left. simpl. lia.
  - split; [exact Hload|reflexivity].
Defined.


Lemma enclose_crop_result_witness :
  ∃ n, VSFilter.enclose_crop VSFilter.max_iterations (idle 90) 0%nat 0%float
       = Some (VSFilter.reduction 0%float n)
     ∧ n = 0%nat.
Proof.
  destruct (enclose_crop_result (idle 90) 0%nat 0%float) as (n & _ & Hrun & Hstay).
  exists n. split; [exact Hrun|]. apply Hstay. reflexivity.
Defined.

Lemma process_accumulates_displacement_witness :
  ∃ s' handed before,
    VSFilter.process prepared 1%nat 0 = Some (s', handed)
    ∧ SlidingBuffer.newest (VSFilter.m_Trajectory prepared) = Some before
    ∧ SlidingBuffer.newest (VSFilter.m_Trajectory s')
      = Some (VSFilter.mkFrameVector (VSFilter.displacement before + 0)%float 0%float).
Proof.
  destruct (VSFilter.process prepared 1%nat 0) as [[s' handed]|] eqn:Hrun;
    [|vm_compute in Hrun; discriminate].
  destruct (process_accumulates_displacement prepared 1%nat 0 s' handed
              prepared_in_step Hrun) as (before & Hbefore & Hnewest & _).
  exists s', handed, before. split; [reflexivity|]. split; [exact Hbefore|exact Hnewest].
Defined.

Lemma process_constant_delay_witness :
  ∃ s0 trace,
    VSFilter.prepare_buffers 30 (idle 90) 2 = Some s0
    ∧ VSFilter.feed s0 [(1%nat, 0); (2%nat, 0); (3%nat, 0); (4%nat, 0); (5%nat, 0)]
      = Some trace
    ∧ (snd <$> trace) = [None; None; None; Some 1%nat; Some 2%nat].
Proof.
  destruct (process_constant_delay 30 (idle 90) 2
              [(1%nat, 0); (2%nat, 0); (3%nat, 0); (4%nat, 0); (5%nat, 0)])
    as (s0 & trace & Hprepare & Hfeed & _).
  - unfold VSFilter.SMOOTHING_RADIUS_MIN. lia.
  - unfold VSFilter.SMOOTHING_RADIUS_MAX. lia.
  - reflexivity.
  - simpl. lia.
  - exists s0, trace. split; [exact Hprepare|]. split; [exact Hfeed|].
    vm_compute in Hprepare. injection Hprepare as <-.
    vm_compute in Hfeed. injection Hfeed as <-. reflexivity.
Defined.

Lemma reset_withholds_output_again_witness :
  VSFilter.configured filled
  ∧ ∃ s', VSFilter.reset 30 id filled = Some s'
      ∧ SlidingBuffer.elements (VSFilter.m_FrameQueue s') = 0
      ∧ VSFilter.in_step s'.
Proof.
  assert (VSFilter.configured filled) as Hconfigured.
  { unfold VSFilter.configured, VSFilter.SMOOTHING_RADIUS_MIN,
      VSFilter.SMOOTHING_RADIUS_MAX.
    simpl. split_and!; try reflexivity; try done; lia. }
  split; [exact Hconfigured|].
  destruct (reset_withholds_output_again 30 id filled [] Hconfigured)
    as (s' & Hreset & _ & Hstep & Hempty & _).
  - simpl. lia.
  - exists s'. split; [exact Hreset|]. split; [exact Hempty|exact Hstep].
Defined.

Lemma tick_crops_inside_frame_witness :
  ∃ s' shown,
    VSFilter.tick five_percent filled (mkSize 0 0)%Z = Some (s', shown)
    ∧ VSFilter.m_CropRegion s' = mkRect 2 2 95 95
    ∧ shown = (mkSize 95 95)%Z.
Proof.
  destruct (proj2 (tick_crops_inside_frame five_percent filled (mkSize 0 0)%Z
                     filled_in_step) (VSFilter.buffer_of 1%nat))
    as (s' & shown & Htick & _).
  - reflexivity.
  - reflexivity.
  - simpl. lia.
  - simpl. lia.
  - vm_compute. discriminate.
  - vm_compute. discriminate.
  - exists s', shown. split; [exact Htick|].
    vm_compute in Htick. by injection Htick as <- <-.
Defined.

Lemma prepare_buffers_loads_kernel_witness :
  ∃ s', VSFilter.prepare_buffers 30 (idle 90) 2 = Some s'
    ∧ SlidingBuffer.items (VSFilter.m_Filter s') = [1; 1; 1; 1; 1]%float.
Proof.
  destruct (prepare_buffers_loads_kernel 30 (idle 90) 2)
    as (s' & Hprepare & _ & Hkernel & _).
  - unfold VSFilter.SMOOTHING_RADIUS_MIN. lia.
  - unfold VSFilter.SMOOTHING_RADIUS_MAX. lia.
  - reflexivity.
  - simpl. lia.
  - exists s'. split; [exact Hprepare|]. rewrite Hkernel. reflexivity.
Defined.

End ExtraFacts.
